(** * AssetManagement: a shallow embedding of the server and of the import
    heuristic, with the properties of its specification.

    The development follows the sources:
    - [Js]         JavaScript values, objects and strings as the code uses
                   them;
    - [Diff]       [getChanges] of the route file;
    - [ImportPage] [calculateSimilarity] and [suggestMapping] of the import
                   page;
    - [Ldap]       [getUserRole] of server/ldap.ts;
    - [Schema]     the tables and insert schemas of shared/schema.ts;
    - [Storage]    the database and server/storage.ts;
    - [Auth]       server/auth.ts;
    - [Routes]     the route handlers and the server;
    - [Spec]       what the specification says, in its words;
    - [Example]    a small deployment.

    Strings are ASCII text.  Numbers are integers or NaN.  Objects that the
    server does not build itself are known by reference.  The database is
    the tables as lists of rows in insertion order, with the constraints the
    schema declares; every statement is atomic and runs at its own instant
    of the clock.  A request handler runs to completion before the next one
    starts. *)

From Stdlib Require Import List String Ascii Bool Arith ZArith QArith Lia.
From Stdlib Require Import Sorting.Sorted Sorting.Permutation.
From Stdlib Require Import DecimalString DecimalNat.
Import ListNotations.
Local Open Scope string_scope.
Local Open Scope list_scope.

(* ===================================================================== *)
(** * JavaScript values, objects and strings                              *)
(* ===================================================================== *)

Module Js.

(** Objects other than the records the server builds itself (Date instances,
    JSON objects, arrays) are known by their reference only. *)
Inductive objkind := KObject | KArray | KDate.

Inductive value :=
| VUndefined
| VNull
| VBool (b : bool)
| VNum (n : Z)
| VNaN
| VStr (s : string)
| VObj (k : objkind) (ref : nat).

Definition objkind_eqb (a b : objkind) : bool :=
  match a, b with
  | KObject, KObject | KArray, KArray | KDate, KDate => true
  | _, _ => false
  end.

(** [a === b]: primitives by value, NaN unequal to itself, objects by
    reference. *)
Definition strict_eq (a b : value) : bool :=
  match a, b with
  | VUndefined, VUndefined => true
  | VNull, VNull => true
  | VBool x, VBool y => Bool.eqb x y
  | VNum x, VNum y => Z.eqb x y
  | VStr x, VStr y => String.eqb x y
  | VObj k x, VObj k' y => objkind_eqb k k' && Nat.eqb x y
  | _, _ => false
  end.

(** [a !== b] *)
Definition strict_neq (a b : value) : bool := negb (strict_eq a b).

(** ToBoolean *)
Definition truthy (v : value) : bool :=
  match v with
  | VUndefined | VNull | VNaN => false
  | VBool b => b
  | VNum n => negb (Z.eqb n 0)
  | VStr s => negb (String.eqb s "")
  | VObj _ _ => true
  end.

(** [a || b] *)
Definition or_else (a b : value) : value := if truthy a then a else b.

(** A plain object: its own properties in insertion order. *)
Definition record := list (string * value).

(** [o[k]] *)
Fixpoint prop (o : record) (k : string) : value :=
  match o with
  | [] => VUndefined
  | (k', v) :: o' => if String.eqb k' k then v else prop o' k
  end.

(** [Object.keys(o)] *)
Definition keys (o : record) : list string := map fst o.

(** [k in o] *)
Definition has_key (o : record) (k : string) : bool :=
  existsb (String.eqb k) (keys o).

(** [o[k] = v]: overwrite in place, or add at the end. *)
Fixpoint set (o : record) (k : string) (v : value) : record :=
  match o with
  | [] => [(k, v)]
  | (k', v') :: o' =>
      if String.eqb k' k then (k', v) :: o' else (k', v') :: set o' k v
  end.

(** [{ ...a, ...b }] *)
Definition spread (a b : record) : record :=
  fold_left (fun o kv => set o (fst kv) (snd kv)) b a.

(** [const { k, ...rest } = o]: [rest]. *)
Definition without (o : record) (k : string) : record :=
  filter (fun kv => negb (String.eqb (fst kv) k)) o.

Definition wf (o : record) : Prop := NoDup (keys o).

(** ** Strings *)

Definition is_upper (c : ascii) : bool :=
  let n := nat_of_ascii c in (65 <=? n)%nat && (n <=? 90)%nat.

Definition lower_ascii (c : ascii) : ascii :=
  if is_upper c then ascii_of_nat (nat_of_ascii c + 32) else c.

(** [s.toLowerCase()] *)
Fixpoint toLowerCase (s : string) : string :=
  match s with
  | EmptyString => EmptyString
  | String c s' => String (lower_ascii c) (toLowerCase s')
  end.

(** The class [\s] on ASCII: tab, line feed, vertical tab, form feed,
    carriage return, space. *)
Definition is_space (c : ascii) : bool :=
  let n := nat_of_ascii c in
  ((9 <=? n)%nat && (n <=? 13)%nat) || (n =? 32)%nat.

(** [s.replace(/c/g, "")] for a character class [cls]. *)
Fixpoint remove_all (cls : ascii -> bool) (s : string) : string :=
  match s with
  | EmptyString => EmptyString
  | String c s' =>
      if cls c then remove_all cls s' else String c (remove_all cls s')
  end.

Fixpoint starts_with (s sub : string) : bool :=
  match sub, s with
  | EmptyString, _ => true
  | String _ _, EmptyString => false
  | String b sub', String a s' => Ascii.eqb a b && starts_with s' sub'
  end.

(** [s.includes(sub)] *)
Fixpoint includes (s sub : string) : bool :=
  starts_with s sub ||
  match s with
  | EmptyString => false
  | String _ s' => includes s' sub
  end.

(** [s.includes(c)] for a single character. *)
Fixpoint includes_char (s : string) (c : ascii) : bool :=
  match s with
  | EmptyString => false
  | String a s' => Ascii.eqb a c || includes_char s' c
  end.

Fixpoint drop_while (p : ascii -> bool) (s : string) : string :=
  match s with
  | EmptyString => EmptyString
  | String c s' => if p c then drop_while p s' else s
  end.

Fixpoint rev_string (s : string) (acc : string) : string :=
  match s with
  | EmptyString => acc
  | String c s' => rev_string s' (String c acc)
  end.

(** [s.trim()] *)
Definition trim (s : string) : string :=
  let front := drop_while is_space s in
  rev_string (drop_while is_space (rev_string front "")) "".

End Js.

Import Js.

(* ===================================================================== *)
(** * The audit diff ([getChanges] of the route file)                      *)
(* ===================================================================== *)

Module Diff.

Record change := mkChange {
  field : string;
  oldValue : value;
  newValue : value
}.

(** The body of the [for (const key of Object.keys(newData))] loop, with
    [changes] the array built so far. *)
Fixpoint getChanges_loop (oldData newData : record) (ks : list string)
    (changes : list change) : list change :=
  match ks with
  | [] => changes
  | key :: rest =>
      if strict_neq (prop oldData key) (prop newData key)
      then getChanges_loop oldData newData rest
             (changes ++ [mkChange key (prop oldData key) (prop newData key)])
      else getChanges_loop oldData newData rest changes
  end.

Definition getChanges (oldData newData : record) : list change :=
  getChanges_loop oldData newData (keys newData) [].

(** The keys of [newData] whose value differs from the old one. *)
Definition changed (oldData newData : record) (k : string) : bool :=
  strict_neq (prop oldData k) (prop newData k).

Definition entries_for (k : string) (cs : list change) : list change :=
  filter (fun c => String.eqb (field c) k) cs.

End Diff.

(* ===================================================================== *)
(** * The column-mapping heuristic of the import page                      *)
(* ===================================================================== *)

Module ImportPage.

(** [ASSET_FIELDS] of shared/schema.ts. *)
Record asset_field := mkField {
  key : string;
  label : string;
  required : bool
}.

Definition ASSET_FIELDS : list asset_field :=
  [ mkField "assetTag" "Asset Tag" true;
    mkField "name" "Name" true;
    mkField "description" "Description" false;
    mkField "manufacturer" "Manufacturer" false;
    mkField "model" "Model" false;
    mkField "serialNumber" "Serial Number" false;
    mkField "purchaseDate" "Purchase Date" false;
    mkField "purchaseCost" "Purchase Cost" false;
    mkField "warrantyExpiry" "Warranty Expiry" false;
    mkField "location" "Location" false;
    mkField "status" "Status" false;
    mkField "notes" "Notes" false ].

(** Similarities are the rationals the double-precision results stand for:
    1, 0.8 and quotients of two string lengths, which compare as their
    roundings do for strings of fewer than 2^26 characters. *)
Definition SIMILARITY_THRESHOLD : Q := 4 # 10.

(** The class [[_\-\s]]. *)
Definition is_separator (c : ascii) : bool :=
  Ascii.eqb c "_" || Ascii.eqb c "-" || is_space c.

(** [str.toLowerCase().replace(/[_\-\s]/g, "")] *)
Definition normalize (str : string) : string :=
  remove_all is_separator (toLowerCase str).

(** [for (let i = 0; i < shorter.length; i++)
       if (longer.includes(shorter[i])) matches++;]
    run from index [i] for [n] more iterations. *)
Fixpoint count_matches_from (shorter longer : string) (i n matches : nat)
    : nat :=
  match n with
  | O => matches
  | S n' =>
      match String.get i shorter with
      | Some c =>
          if includes_char longer c
          then count_matches_from shorter longer (S i) n' (S matches)
          else count_matches_from shorter longer (S i) n' matches
      | None => count_matches_from shorter longer (S i) n' matches
      end
  end.

Definition calculateSimilarity (str1 str2 : string) : Q :=
  let s1 := normalize str1 in
  let s2 := normalize str2 in
  if String.eqb s1 s2 then 1
  else if includes s1 s2 || includes s2 s1 then 8 # 10
  else
    let shorter :=
      if (String.length s1 <? String.length s2)%nat then s1 else s2 in
    let longer :=
      if (String.length s1 <? String.length s2)%nat then s2 else s1 in
    let matches :=
      count_matches_from shorter longer 0 (String.length shorter) 0 in
    inject_Z (Z.of_nat matches) / inject_Z (Z.of_nat (String.length longer)).

Record MappingSuggestion := mkSuggestion {
  sug_field : string;
  confidence : Q
}.

(** [Math.max(a, b)] *)
Definition Math_max (a b : Q) : Q := if Qle_bool a b then b else a.

(** [a > b] *)
Definition Qgtb (a b : Q) : bool := negb (Qle_bool a b).

(** One iteration of [for (const field of ASSET_FIELDS)]. *)
Definition suggest_step (header : string) (bestMatch : MappingSuggestion)
    (f : asset_field) : MappingSuggestion :=
  let labelSim := calculateSimilarity header (label f) in
  let keySim := calculateSimilarity header (key f) in
  let maxSim := Math_max labelSim keySim in
  if Qgtb maxSim (confidence bestMatch)
  then mkSuggestion (key f) maxSim
  else bestMatch.

Definition suggestMapping (header : string) : MappingSuggestion :=
  let bestMatch := fold_left (suggest_step header) ASSET_FIELDS
                     (mkSuggestion "" 0) in
  if Qle_bool SIMILARITY_THRESHOLD (confidence bestMatch)
  then bestMatch
  else mkSuggestion "" 0.

(** The score a field gets for a header: the larger of the similarity with
    its label and with its key. *)
Definition field_score (header : string) (f : asset_field) : Q :=
  Math_max (calculateSimilarity header (label f))
           (calculateSimilarity header (key f)).

(** The characters of a string. *)
Fixpoint chars (s : string) : list ascii :=
  match s with
  | EmptyString => []
  | String c s' => c :: chars s'
  end.

(** How many characters of [shorter] occur somewhere in [longer]. *)
Definition occurring (shorter longer : string) : nat :=
  List.length (filter (includes_char longer) (chars shorter)).

(** [a] contains [b]. *)
Definition contains (a b : string) : Prop :=
  exists pre post, a = (pre ++ b ++ post)%string.

(** The shorter and the longer of two strings; of two strings of one
    length the second is the shorter. *)
Definition shorter_of (s1 s2 : string) : string :=
  if (String.length s1 <? String.length s2)%nat then s1 else s2.
Definition longer_of (s1 s2 : string) : string :=
  if (String.length s1 <? String.length s2)%nat then s2 else s1.

(** The third case of the similarity as the specification words it: the
    fraction of the characters of the shorter normalized string that occur
    in the longer one. *)
Definition fraction_of_shorter (str1 str2 : string) : Q :=
  let s1 := normalize str1 in
  let s2 := normalize str2 in
  inject_Z (Z.of_nat (occurring (shorter_of s1 s2) (longer_of s1 s2)))
  / inject_Z (Z.of_nat (String.length (shorter_of s1 s2))).

(** The third case as the code computes it: the same count over the length
    of the longer string. *)
Definition fraction_of_longer (str1 str2 : string) : Q :=
  let s1 := normalize str1 in
  let s2 := normalize str2 in
  inject_Z (Z.of_nat (occurring (shorter_of s1 s2) (longer_of s1 s2)))
  / inject_Z (Z.of_nat (String.length (longer_of s1 s2))).

End ImportPage.

(* ===================================================================== *)
(** * Role derivation (server/ldap.ts)                                     *)
(* ===================================================================== *)

Module Ldap.

Record LdapConfig := mkLdapConfig {
  url : string;
  baseDN : string;
  bindDN : string;
  bindPassword : string;
  userSearchFilter : string;
  groupSearchFilter : string;
  adminGroupDN : option string;
  userGroupDN : option string;
  readOnlyGroupDN : option string
}.

Record LdapUser := mkLdapUser {
  dn : string;
  employeeId : string;
  displayName : string;
  email : string;
  sAMAccountName : string;
  department : option string;
  title : option string;
  manager : option string;
  officeLocation : option string;
  phone : option string;
  memberOf : list string
}.

Inductive role := admin | user | readonly.

(** [if (config.xGroupDN)]: defined and not the empty string. *)
Definition group_set (g : option string) : bool :=
  match g with
  | Some s => negb (String.eqb s "")
  | None => false
  end.

(** [config.xGroupDN!] *)
Definition group_dn (g : option string) : string :=
  match g with Some s => s | None => "" end.

Definition getUserRole (u : LdapUser) (config : LdapConfig) : role :=
  let memberOfLower := map toLowerCase (memberOf u) in
  if group_set (adminGroupDN config)
     && existsb (fun g => includes g (toLowerCase (group_dn (adminGroupDN config))))
          memberOfLower
  then admin
  else if group_set (readOnlyGroupDN config)
     && existsb (fun g => includes g (toLowerCase (group_dn (readOnlyGroupDN config))))
          memberOfLower
  then readonly
  else user.

(** [g] contains [d] when case is ignored. *)
Definition contains_ci (g d : string) : Prop :=
  exists pre post, toLowerCase g = (pre ++ toLowerCase d ++ post)%string.

(** Some group of the user contains the configured group. *)
Definition member_of_group (u : LdapUser) (g : option string) : Prop :=
  exists d, g = Some d /\ d <> "" /\
    exists m, In m (memberOf u) /\ contains_ci m d.

End Ldap.

(* ===================================================================== *)
(** * The tables of shared/schema.ts                                       *)
(* ===================================================================== *)

Module Schema.

Inductive table := categories | adUsers | assets | importTemplates | users.

Inductive coltype := text | varchar | boolean | timestamp | jsonb.

Inductive coldefault :=
| no_default
| gen_random_uuid
| defaultNow
| default_value (v : value)
| default_empty_object.

Record column := mkColumn {
  col_name : string;
  col_type : coltype;
  primaryKey : bool;
  notNull : bool;
  unique : bool;
  col_default : coldefault;
  references : option table
}.

(** Column builders, in the order the source chains them. *)
Definition col (n : string) (t : coltype) : column :=
  mkColumn n t false false false no_default None.
Definition with_primaryKey (c : column) : column :=
  mkColumn (col_name c) (col_type c) true (notNull c) (unique c)
    (col_default c) (references c).
Definition with_notNull (c : column) : column :=
  mkColumn (col_name c) (col_type c) (primaryKey c) true (unique c)
    (col_default c) (references c).
Definition with_unique (c : column) : column :=
  mkColumn (col_name c) (col_type c) (primaryKey c) (notNull c) true
    (col_default c) (references c).
Definition with_default (d : coldefault) (c : column) : column :=
  mkColumn (col_name c) (col_type c) (primaryKey c) (notNull c) (unique c)
    d (references c).
Definition with_references (t : table) (c : column) : column :=
  mkColumn (col_name c) (col_type c) (primaryKey c) (notNull c) (unique c)
    (col_default c) (Some t).

Definition id_column : column :=
  with_default gen_random_uuid (with_primaryKey (col "id" varchar)).

Definition categories_columns : list column :=
  [ id_column;
    with_notNull (col "name" text);
    col "description" text;
    col "parentId" varchar;
    with_default (default_value (VStr "folder")) (col "icon" text);
    with_default (default_value (VStr "#3b82f6")) (col "color" text);
    with_default defaultNow (col "createdAt" timestamp);
    with_default defaultNow (col "updatedAt" timestamp) ].

Definition adUsers_columns : list column :=
  [ id_column;
    with_unique (col "employeeId" text);
    with_notNull (col "displayName" text);
    with_unique (col "email" text);
    col "department" text;
    col "title" text;
    col "manager" text;
    col "officeLocation" text;
    col "phone" text;
    with_default (default_value (VBool true)) (col "isActive" boolean);
    with_default defaultNow (col "lastSyncAt" timestamp);
    with_default defaultNow (col "createdAt" timestamp);
    with_default defaultNow (col "updatedAt" timestamp) ].

Definition assets_columns : list column :=
  [ id_column;
    with_notNull (with_unique (col "assetTag" text));
    with_notNull (col "name" text);
    col "description" text;
    with_references categories (col "categoryId" varchar);
    with_references adUsers (col "assignedUserId" varchar);
    with_notNull (with_default (default_value (VStr "active")) (col "status" text));
    col "manufacturer" text;
    col "model" text;
    col "serialNumber" text;
    col "purchaseDate" timestamp;
    col "purchaseCost" text;
    col "warrantyExpiry" timestamp;
    col "location" text;
    col "notes" text;
    with_default default_empty_object (col "customFields" jsonb);
    with_default defaultNow (col "createdAt" timestamp);
    with_default defaultNow (col "updatedAt" timestamp) ].

Definition importTemplates_columns : list column :=
  [ id_column;
    with_notNull (col "name" text);
    with_notNull (col "mappings" jsonb);
    col "createdBy" varchar;
    with_default defaultNow (col "createdAt" timestamp);
    with_default defaultNow (col "updatedAt" timestamp) ].

(** Modelled from the spec: the [users] table of shared/models/auth is not
    among the sources.  The columns are those the server reads and writes
    (server/auth.ts and the role checks of the route file): a local login
    with a unique email and a stored password hash. *)
Definition users_columns : list column :=
  [ id_column;
    with_notNull (with_unique (col "email" varchar));
    with_notNull (col "password" varchar);
    col "firstName" varchar;
    col "lastName" varchar;
    with_default (default_value (VStr "user")) (col "role" varchar);
    with_default (default_value (VBool false)) (col "isAdmin" boolean);
    with_default (default_value (VBool true)) (col "isActive" boolean);
    with_default defaultNow (col "createdAt" timestamp);
    with_default defaultNow (col "updatedAt" timestamp) ].

Definition columns (t : table) : list column :=
  match t with
  | categories => categories_columns
  | adUsers => adUsers_columns
  | assets => assets_columns
  | importTemplates => importTemplates_columns
  | users => users_columns
  end.

Definition table_eqb (a b : table) : bool :=
  match a, b with
  | categories, categories | adUsers, adUsers | assets, assets
  | importTemplates, importTemplates | users, users => true
  | _, _ => false
  end.

(** [ASSET_STATUSES] *)
Definition ASSET_STATUSES : list string :=
  [ "active"; "inactive"; "maintenance"; "retired"; "disposed"; "lost";
    "stolen" ].

(** ** Insert schemas ([createInsertSchema(t).omit({...})])

    A column is required when it is [notNull] and has no default, optional
    otherwise; it accepts [null] when it is not [notNull].  Keys that are
    not columns are stripped. *)

Definition omit (names : list string) (cols : list column) : list column :=
  filter (fun c => negb (existsb (String.eqb (col_name c)) names)) cols.

Definition insertCategorySchema : list column :=
  omit ["id"; "createdAt"; "updatedAt"] categories_columns.
Definition insertAdUserSchema : list column :=
  omit ["id"; "createdAt"; "updatedAt"; "lastSyncAt"] adUsers_columns.
Definition insertAssetSchema : list column :=
  omit ["id"; "createdAt"; "updatedAt"] assets_columns.

Definition has_default (c : column) : bool :=
  match col_default c with no_default => false | _ => true end.

Definition zod_optional (c : column) : bool :=
  negb (notNull c) || has_default c.

Definition zod_nullable (c : column) : bool := negb (notNull c).

Definition type_ok (t : coltype) (v : value) : bool :=
  match t, v with
  | (text | varchar), VStr _ => true
  | boolean, VBool _ => true
  | timestamp, VObj KDate _ => true
  | jsonb, (VStr _ | VNum _ | VBool _ | VNull) => true
  | jsonb, VObj (KObject | KArray) _ => true
  | _, _ => false
  end.

Definition expected_name (t : coltype) : string :=
  match t with
  | text | varchar => "string"
  | boolean => "boolean"
  | timestamp => "date"
  | jsonb => "json"
  end.

Definition received_name (v : value) : string :=
  match v with
  | VUndefined => "undefined"
  | VNull => "null"
  | VBool _ => "boolean"
  | VNum _ => "number"
  | VNaN => "nan"
  | VStr _ => "string"
  | VObj KObject _ => "object"
  | VObj KArray _ => "array"
  | VObj KDate _ => "date"
  end.

(** The issue a field raises, if any. [partial] is [schema.partial()]. *)
Definition check_field (partial : bool) (c : column) (v : value)
    : option string :=
  match v with
  | VUndefined => if partial || zod_optional c then None else Some "Required"
  | VNull =>
      if zod_nullable c then None
      else Some ("Expected " ++ expected_name (col_type c)
                 ++ ", received null")%string
  | _ =>
      if type_ok (col_type c) v then None
      else match col_type c with
           | jsonb => Some "Invalid input"
           | t => Some ("Expected " ++ expected_name t ++ ", received "
                        ++ received_name v)%string
           end
  end.

(** [schema.parse(body)]: the message of the first issue, or the parsed
    data, which has the keys of the schema that the body has. *)
Fixpoint parse_fields (partial : bool) (cols : list column) (body : record)
    : string + record :=
  match cols with
  | [] => inr []
  | c :: cols' =>
      let v := prop body (col_name c) in
      match check_field partial c v with
      | Some message => inl message
      | None =>
          match parse_fields partial cols' body with
          | inl message => inl message
          | inr data =>
              inr (if has_key body (col_name c)
                   then (col_name c, v) :: data else data)
          end
      end
  end.

End Schema.

(* ===================================================================== *)
(** * The database and server/storage.ts                                   *)
(* ===================================================================== *)

Module Storage.

Import Schema Diff.

(** [InsertAuditLog]: what the handlers pass to [createAuditLog]. *)
Record InsertAuditLog := mkInsertAuditLog {
  entityType : string;
  entityId : string;
  action : string;
  userId : value;
  userName : value;
  previousData : option record;
  newData : option record;
  changes : option (list change);
  ipAddress : string;
  userAgent : string
}.

(** A row of [audit_logs]: the inserted data with the generated [id] and
    the [createdAt] instant. *)
Record AuditLog := mkAuditLog {
  log_id : string;
  logged : InsertAuditLog;
  createdAt : nat
}.

(** The database.  [clock] is the instant of the next statement; it gives
    [now()], and the generated identifiers. *)
Record db := mkDb {
  categories_rows : list record;
  adUsers_rows : list record;
  assets_rows : list record;
  importTemplates_rows : list record;
  users_rows : list record;
  auditLogs : list AuditLog;
  clock : nat
}.

Definition empty_db : db := mkDb [] [] [] [] [] [] 0.

Definition rows_of (t : table) (s : db) : list record :=
  match t with
  | categories => categories_rows s
  | adUsers => adUsers_rows s
  | assets => assets_rows s
  | importTemplates => importTemplates_rows s
  | users => users_rows s
  end.

(** The database after a statement that leaves [rows] in table [t]. *)
Definition commit (t : table) (rows : list record) (s : db) : db :=
  match t with
  | categories =>
      mkDb rows (adUsers_rows s) (assets_rows s) (importTemplates_rows s)
        (users_rows s) (auditLogs s) (S (clock s))
  | adUsers =>
      mkDb (categories_rows s) rows (assets_rows s) (importTemplates_rows s)
        (users_rows s) (auditLogs s) (S (clock s))
  | assets =>
      mkDb (categories_rows s) (adUsers_rows s) rows (importTemplates_rows s)
        (users_rows s) (auditLogs s) (S (clock s))
  | importTemplates =>
      mkDb (categories_rows s) (adUsers_rows s) (assets_rows s) rows
        (users_rows s) (auditLogs s) (S (clock s))
  | users =>
      mkDb (categories_rows s) (adUsers_rows s) (assets_rows s)
        (importTemplates_rows s) rows (auditLogs s) (S (clock s))
  end.

(** ** Computations that read and write the database and may throw *)

Inductive exn :=
| ZodError (message : string)
| DatabaseError (message : string)
| Error (message : string).

Definition M (A : Type) : Type := db -> (exn + A) * db.

Definition ret {A} (a : A) : M A := fun s => (inr a, s).

Definition throw {A} (e : exn) : M A := fun s => (inl e, s).

Definition bind {A B} (m : M A) (k : A -> M B) : M B :=
  fun s =>
    match m s with
    | (inr a, s') => k a s'
    | (inl e, s') => (inl e, s')
    end.

(** [try { m } catch (error) { h error }]: what [m] wrote before it threw
    stays written. *)
Definition try_catch {A} (m : M A) (h : exn -> M A) : M A :=
  fun s =>
    match m s with
    | (inr a, s') => (inr a, s')
    | (inl e, s') => h e s'
    end.

Notation "x <- m ;; k" := (bind m (fun x => k))
  (at level 61, m at next level, right associativity).
Notation "m ;;; k" := (bind m (fun _ => k))
  (at level 61, right associativity).

(** [for (const x of xs) { body }] over an accumulator. *)
Fixpoint for_of {A B} (xs : list A) (body : A -> B -> M B) (acc : B) : M B :=
  match xs with
  | [] => ret acc
  | x :: xs' => acc' <- body x acc ;; for_of xs' body acc'
  end.

(** ** Statements *)

Definition decimal (n : nat) : string :=
  match n with
  | O => "0"
  | _ => NilEmpty.string_of_uint (Nat.to_uint n)
  end.

(** The identifier generated at instant [t]. *)
Definition uuid (t : nat) : string := ("uuid-" ++ decimal t)%string.

Definition is_null (v : value) : bool :=
  match v with VNull | VUndefined => true | _ => false end.

(** SQL [a = b]: never true of a null. *)
Definition sql_eq (a b : value) : bool :=
  negb (is_null a) && negb (is_null b) && strict_eq a b.

(** [const [x] = rows] *)
Definition first {A} (rows : list A) : option A :=
  match rows with [] => None | x :: _ => Some x end.

(** [db.select().from(t).where(eq(t.c, v))] *)
Definition db_select (t : table) (c : string) (v : value) : M (list record) :=
  fun s => (inr (filter (fun r => sql_eq (prop r c) v) (rows_of t s)), s).

(** [new Date()] *)
Definition new_Date : M value := fun s => (inr (VObj KDate (clock s)), s).

Definition default_for (c : column) (now : nat) : value :=
  match col_default c with
  | no_default => VNull
  | gen_random_uuid => VStr (uuid now)
  | defaultNow => VObj KDate now
  | default_value v => v
  | default_empty_object => VObj KObject now
  end.

(** [v === undefined ? d : v] *)
Definition or_default (v d : value) : value :=
  match v with VUndefined => d | _ => v end.

(** The row an insert of [data] makes: a column the data leaves undefined
    gets its default. *)
Definition new_row (cols : list column) (data : record) (now : nat) : record :=
  map (fun c =>
         (col_name c,
          or_default (prop data (col_name c)) (default_for c now))) cols.

(** The row an update with [values] makes of [row]: undefined values are
    skipped. *)
Definition updated_row (values : record) (row : record) : record :=
  map (fun kv => (fst kv, or_default (prop values (fst kv)) (snd kv))) row.

(** The constraints a written row must meet, [others] being the rows of its
    table it is to stay distinct from. *)
Definition not_null_ok (cols : list column) (row : record) : bool :=
  forallb (fun c =>
             negb (notNull c || primaryKey c)
             || negb (is_null (prop row (col_name c)))) cols.

Definition unique_ok (cols : list column) (others : list record)
    (row : record) : bool :=
  forallb (fun c =>
             negb (unique c || primaryKey c)
             || negb (existsb (fun r =>
                                 sql_eq (prop r (col_name c))
                                        (prop row (col_name c))) others))
          cols.

Definition foreign_keys_ok (cols : list column) (s : db) (row : record)
    : bool :=
  forallb (fun c =>
             match references c with
             | None => true
             | Some t' =>
                 is_null (prop row (col_name c))
                 || existsb (fun r => sql_eq (prop r "id")
                                             (prop row (col_name c)))
                            (rows_of t' s)
             end) cols.

Definition all_tables : list table :=
  [categories; adUsers; assets; importTemplates; users].

(** Is a row with identifier [id] of table [t] referenced from another
    table? *)
Definition referenced (t : table) (id : value) (s : db) : bool :=
  existsb (fun t' =>
    existsb (fun c =>
      match references c with
      | Some t0 =>
          table_eqb t0 t
          && existsb (fun r => sql_eq (prop r (col_name c)) id) (rows_of t' s)
      | None => false
      end) (columns t')) all_tables.

(** [eq(t.id, id)] *)
Definition hit (id : value) (r : record) : bool := sql_eq (prop r "id") id.

(** [db.insert(t).values(data).returning()] *)
Definition db_insert (t : table) (data : record) : M record :=
  fun s =>
    let row := new_row (columns t) data (clock s) in
    if negb (not_null_ok (columns t) row) then
      (inl (DatabaseError "violates not-null constraint"), s)
    else if negb (unique_ok (columns t) (rows_of t s) row) then
      (inl (DatabaseError "violates unique constraint"), s)
    else if negb (foreign_keys_ok (columns t) s row) then
      (inl (DatabaseError "violates foreign key constraint"), s)
    else (inr row, commit t (rows_of t s ++ [row]) s).

(** [db.update(t).set(values).where(eq(t.id, id)).returning()] *)
Definition db_update (t : table) (id : value) (values : record)
    : M (list record) :=
  fun s =>
    let others := filter (fun r => negb (hit id r)) (rows_of t s) in
    let rows' :=
      map (fun r => if hit id r then updated_row values r else r)
          (rows_of t s) in
    let changed := map (updated_row values) (filter (hit id) (rows_of t s)) in
    if negb (forallb (not_null_ok (columns t)) changed) then
      (inl (DatabaseError "violates not-null constraint"), s)
    else if negb (forallb (unique_ok (columns t) others) changed) then
      (inl (DatabaseError "violates unique constraint"), s)
    else if negb (forallb (foreign_keys_ok (columns t) s) changed) then
      (inl (DatabaseError "violates foreign key constraint"), s)
    else (inr changed, commit t rows' s).

(** [db.delete(t).where(eq(t.id, id)).returning()] *)
Definition db_delete (t : table) (id : value) : M (list record) :=
  fun s =>
    let deleted := filter (hit id) (rows_of t s) in
    match deleted with
    | [] => (inr [], s)
    | _ =>
        if referenced t id s then
          (inl (DatabaseError "violates foreign key constraint"), s)
        else
          (inr deleted,
           commit t (filter (fun r => negb (hit id r)) (rows_of t s)) s)
    end.

(** ** [DatabaseStorage] *)

(** Categories *)
Definition getCategory (id : string) : M (option record) :=
  rows <- db_select categories "id" (VStr id) ;; ret (first rows).

Definition createCategory (data : record) : M record :=
  db_insert categories data.

Definition updateCategory (id : string) (data : record) : M (option record) :=
  now <- new_Date ;;
  rows <- db_update categories (VStr id) (set data "updatedAt" now) ;;
  ret (first rows).

Definition deleteCategory (id : string) : M bool :=
  result <- db_delete categories (VStr id) ;;
  ret (0 <? List.length result)%nat.

(** Assets *)
Definition getAsset (id : string) : M (option record) :=
  rows <- db_select assets "id" (VStr id) ;; ret (first rows).

Definition getAssetByTag (assetTag : value) : M (option record) :=
  rows <- db_select assets "assetTag" assetTag ;; ret (first rows).

Definition createAsset (data : record) : M record :=
  db_insert assets data.

Definition updateAsset (id : string) (data : record) : M (option record) :=
  now <- new_Date ;;
  rows <- db_update assets (VStr id) (set data "updatedAt" now) ;;
  ret (first rows).

Definition deleteAsset (id : string) : M bool :=
  result <- db_delete assets (VStr id) ;;
  ret (0 <? List.length result)%nat.

(** Audit logs *)
Fixpoint insert_desc (l : AuditLog) (ls : list AuditLog) : list AuditLog :=
  match ls with
  | [] => [l]
  | x :: xs =>
      if (createdAt x <? createdAt l)%nat then l :: ls
      else x :: insert_desc l xs
  end.

(** [.orderBy(desc(auditLogs.createdAt))] *)
Definition orderBy_desc_createdAt (ls : list AuditLog) : list AuditLog :=
  fold_right insert_desc [] ls.

(** [limit] is a number or [undefined]. *)
Definition getAuditLogs (limit : value) : M (list AuditLog) :=
  fun s =>
    let query := orderBy_desc_createdAt (auditLogs s) in
    if truthy limit then
      match limit with
      | VNum n =>
          if (n <? 0)%Z
          then (inl (DatabaseError "LIMIT must not be negative"), s)
          else (inr (firstn (Z.to_nat n) query), s)
      | _ => (inl (DatabaseError "invalid input syntax for type bigint"), s)
      end
    else (inr query, s).

Definition getAuditLogsByEntity (type id : string) : M (list AuditLog) :=
  fun s =>
    (inr (orderBy_desc_createdAt
            (filter (fun l => String.eqb (entityType (logged l)) type
                              && String.eqb (entityId (logged l)) id)
                    (auditLogs s))), s).

Definition createAuditLog (data : InsertAuditLog) : M AuditLog :=
  fun s =>
    let log := mkAuditLog (uuid (clock s)) data (clock s) in
    (inr log,
     mkDb (categories_rows s) (adUsers_rows s) (assets_rows s)
       (importTemplates_rows s) (users_rows s) (auditLogs s ++ [log])
       (S (clock s))).

(** Directory users *)
Definition getAdUser (id : string) : M (option record) :=
  rows <- db_select adUsers "id" (VStr id) ;; ret (first rows).

Definition getAdUserByEmail (email : value) : M (option record) :=
  if negb (truthy email) then ret None
  else rows <- db_select adUsers "email" email ;; ret (first rows).

Definition createAdUser (data : record) : M record :=
  db_insert adUsers data.

Definition updateAdUser (id : string) (data : record) : M (option record) :=
  now <- new_Date ;;
  rows <- db_update adUsers (VStr id) (set data "updatedAt" now) ;;
  ret (first rows).

Definition deleteAdUser (id : string) : M bool :=
  result <- db_delete adUsers (VStr id) ;;
  ret (0 <? List.length result)%nat.

(** Import templates *)
Definition createImportTemplate (data : record) : M record :=
  db_insert importTemplates data.

(** The calls of [IStorage], for what they do to the database. *)
Inductive storage_call :=
| call_getCategories
| call_getCategory (id : string)
| call_createCategory (data : record)
| call_updateCategory (id : string) (data : record)
| call_deleteCategory (id : string)
| call_getAssets
| call_getAssetsWithRelations
| call_getAsset (id : string)
| call_createAsset (data : record)
| call_updateAsset (id : string) (data : record)
| call_deleteAsset (id : string)
| call_getAssetByTag (assetTag : value)
| call_getAuditLogs (limit : value)
| call_getAuditLogsByEntity (type id : string)
| call_createAuditLog (data : InsertAuditLog)
| call_getAdUsers
| call_getAdUser (id : string)
| call_getAdUserByEmail (email : value)
| call_createAdUser (data : record)
| call_updateAdUser (id : string) (data : record)
| call_deleteAdUser (id : string)
| call_getImportTemplates
| call_createImportTemplate (data : record)
| call_getStats.

Definition after {A} (m : M A) (s : db) : db := snd (m s).

(** The database after a call; the calls that only select leave it as it
    is. *)
Definition run_call (c : storage_call) (s : db) : db :=
  match c with
  | call_getCategories | call_getAssets | call_getAssetsWithRelations
  | call_getAdUsers | call_getImportTemplates | call_getStats => s
  | call_getCategory id => after (getCategory id) s
  | call_createCategory data => after (createCategory data) s
  | call_updateCategory id data => after (updateCategory id data) s
  | call_deleteCategory id => after (deleteCategory id) s
  | call_getAsset id => after (getAsset id) s
  | call_createAsset data => after (createAsset data) s
  | call_updateAsset id data => after (updateAsset id data) s
  | call_deleteAsset id => after (deleteAsset id) s
  | call_getAssetByTag tag => after (getAssetByTag tag) s
  | call_getAuditLogs limit => after (getAuditLogs limit) s
  | call_getAuditLogsByEntity type id => after (getAuditLogsByEntity type id) s
  | call_createAuditLog data => after (createAuditLog data) s
  | call_getAdUser id => after (getAdUser id) s
  | call_getAdUserByEmail email => after (getAdUserByEmail email) s
  | call_createAdUser data => after (createAdUser data) s
  | call_updateAdUser id data => after (updateAdUser id data) s
  | call_deleteAdUser id => after (deleteAdUser id) s
  | call_createImportTemplate data => after (createImportTemplate data) s
  end.

End Storage.

(* ===================================================================== *)
(** * server/auth.ts                                                       *)
(* ===================================================================== *)

Module Auth.

Import Schema Storage.

(** What a request finds outside the server: the password hashing library,
    the two request schemas of shared/models/auth (not among the sources),
    the session store and the directory. *)
Record Env := mkEnv {
  bcrypt_hash : string -> string;
  bcrypt_compare : string -> string -> bool;
  (** [registerSchema.parse]: the message of the first issue, or the data *)
  registerSchema : record -> string + record;
  (** [loginSchema.parse]: the message of the first issue, if any *)
  loginSchema : record -> option string;
  (** does [req.login] fail? *)
  login_error : bool;
  (** does [req.logout] fail? *)
  logout_error : bool;
  (** [None] when LDAP is not configured, else what [syncAllUsers]
      returns or the message it throws *)
  ldap : option (string + list Ldap.LdapUser)
}.

(** [const { password, ...safeUser } = user; return safeUser;] *)
Definition sanitizeUser (user : record) : record := without user "password".

(** The outcome of the local strategy: [done(error)], [done(null, false,
    { message })] or [done(null, user)]. *)
Inductive verified :=
| done_error (e : exn)
| done_fail (message : string)
| done_user (u : record).

Definition verify (env : Env) (email password : string) : M verified :=
  try_catch
    (rows <- db_select users "email" (VStr (toLowerCase email)) ;;
     match first rows with
     | None => ret (done_fail "Invalid email or password")
     | Some user =>
         if negb (truthy (prop user "isActive"))
         then ret (done_fail "Account is disabled")
         else
           match prop user "password" with
           | VStr hash =>
               if negb (bcrypt_compare env password hash)
               then ret (done_fail "Invalid email or password")
               else ret (done_user (sanitizeUser user))
           | _ => throw (Error "Illegal arguments")
           end
     end)
    (fun error => ret (done_error error)).

(** [passport.deserializeUser]: the user of the session, or none. *)
Definition deserializeUser (id : string) : M (option record) :=
  rows <- db_select users "id" (VStr id) ;;
  match first rows with
  | Some user => ret (Some (sanitizeUser user))
  | None => ret None
  end.

Definition registerUser (env : Env) (email password firstName : string)
    (lastName : value) : M record :=
  let hashedPassword := bcrypt_hash env password in
  user <- db_insert users
            [ ("email", VStr (toLowerCase email));
              ("password", VStr hashedPassword);
              ("firstName", VStr firstName);
              ("lastName", or_else lastName VNull) ] ;;
  ret (sanitizeUser user).

Definition getUserByEmail (email : string) : M (option record) :=
  rows <- db_select users "email" (VStr (toLowerCase email)) ;;
  ret (first rows).

Definition getUser (id : string) : M (option record) :=
  rows <- db_select users "id" (VStr id) ;;
  ret (match first rows with
       | Some user => Some (sanitizeUser user)
       | None => None
       end).

End Auth.

(* ===================================================================== *)
(** * The route handlers                                                   *)
(* ===================================================================== *)

Module Routes.

Import Schema Diff Storage Auth.

(** What arrives: the session cookie resolved to the identifier kept in the
    session, the client address, the [user-agent] header, [:id], the JSON
    body, the [rows] of the body when it is an array (of objects with string
    fields, as the import page sends them), and [?limit=]. *)
Record Http := mkHttp {
  session : option string;
  ip : option string;
  remoteAddress : option string;
  user_agent : option string;
  params_id : string;
  body : record;
  body_rows : option (list (list (string * string)));
  query_limit : option string
}.

(** The request the handlers see: [req.user] is set by the session
    middleware. *)
Record Request := mkRequest {
  http :> Http;
  user : option record
}.

Inductive json :=
| j_message (message : string)
| j_record (r : record)
| j_undefined
| j_success (success : bool)
| j_logs (logs : list AuditLog)
| j_import (success failed total : nat)
| j_sync (message : string) (synced created updated : nat).

Record Response := mkResponse {
  status : nat;
  sent : json
}.

(** [res.status(n).json(x)] and [res.json(x)] *)
Definition res_status_json (n : nat) (x : json) : M Response :=
  ret (mkResponse n x).
Definition res_json (x : json) : M Response := ret (mkResponse 200 x).

(** [String(v)], as template literals apply it. *)
Definition to_string (v : value) : string :=
  match v with
  | VUndefined => "undefined"
  | VNull => "null"
  | VBool true => "true"
  | VBool false => "false"
  | VNum n => NilZero.string_of_int (Z.to_int n)
  | VNaN => "NaN"
  | VStr s => s
  | VObj _ _ => "[object Object]"
  end.

(** [a || b] on an optional string *)
Definition string_or (a : option string) (b : string) : string :=
  match a with
  | Some s => if String.eqb s "" then b else s
  | None => b
  end.

(** [a || null] on an optional string *)
Definition string_or_null (a : option string) : value :=
  match a with
  | Some s => if String.eqb s "" then VNull else VStr s
  | None => VNull
  end.

Definition getClientInfo (req : Request) : string * string :=
  (string_or (ip req) (string_or (remoteAddress req) "unknown"),
   string_or (user_agent req) "unknown").

Definition getUserInfo (req : Request) : value * value :=
  match user req with
  | Some user =>
      (or_else (prop user "id") VNull,
       if truthy (prop user "firstName")
       then VStr (trim (to_string (prop user "firstName") ++ " "
                        ++ to_string (or_else (prop user "lastName") (VStr ""))))
       else or_else (prop user "email") (VStr "System"))
  | None => (VNull, VStr "System")
  end.

(** [isAuthenticated] *)
Definition isAuthenticated (handler : Request -> M Response) (req : Request)
    : M Response :=
  match user req with
  | Some _ => handler req
  | None => res_status_json 401 (j_message "Unauthorized")
  end.

(** [schema.parse(req.body)] and [schema.partial().parse(req.body)] *)
Definition parse (schema : list column) (body : record) : M record :=
  match parse_fields false schema body with
  | inl message => throw (ZodError message)
  | inr data => ret data
  end.

Definition parse_partial (schema : list column) (body : record) : M record :=
  match parse_fields true schema body with
  | inl message => throw (ZodError message)
  | inr data => ret data
  end.

(** The [catch] of the handlers that validate: 400 with the first issue of
    a [ZodError], 500 otherwise. *)
Definition catch_zod (failure : string) (error : exn) : M Response :=
  match error with
  | ZodError message => res_status_json 400 (j_message message)
  | _ => res_status_json 500 (j_message failure)
  end.

Definition catch_all (failure : string) (error : exn) : M Response :=
  res_status_json 500 (j_message failure).

(** ** Categories *)

Definition post_categories : Request -> M Response :=
  isAuthenticated (fun req =>
    try_catch
      (data <- parse insertCategorySchema (body req) ;;
       category <- createCategory data ;;
       let '(userId, userName) := getUserInfo req in
       let '(ipAddress, userAgent) := getClientInfo req in
       createAuditLog
         {| entityType := "category";
            entityId := to_string (prop category "id");
            action := "create";
            userId := userId;
            userName := userName;
            previousData := None;
            newData := Some category;
            changes := None;
            ipAddress := ipAddress;
            userAgent := userAgent |} ;;;
       res_status_json 201 (j_record category))
      (catch_zod "Failed to create category")).

Definition patch_categories : Request -> M Response :=
  isAuthenticated (fun req =>
    try_catch
      (existing <- getCategory (params_id req) ;;
       match existing with
       | None => res_status_json 404 (j_message "Category not found")
       | Some existing =>
           data <- parse_partial insertCategorySchema (body req) ;;
           category <- updateCategory (params_id req) data ;;
           let '(userId, userName) := getUserInfo req in
           let '(ipAddress, userAgent) := getClientInfo req in
           createAuditLog
             {| entityType := "category";
                entityId := params_id req;
                action := "update";
                userId := userId;
                userName := userName;
                previousData := Some existing;
                newData := category;
                changes := Some (getChanges existing data);
                ipAddress := ipAddress;
                userAgent := userAgent |} ;;;
           res_json (match category with
                     | Some r => j_record r
                     | None => j_undefined
                     end)
       end)
      (catch_zod "Failed to update category")).

Definition delete_categories : Request -> M Response :=
  isAuthenticated (fun req =>
    try_catch
      (existing <- getCategory (params_id req) ;;
       match existing with
       | None => res_status_json 404 (j_message "Category not found")
       | Some existing =>
           deleted <- deleteCategory (params_id req) ;;
           let '(userId, userName) := getUserInfo req in
           let '(ipAddress, userAgent) := getClientInfo req in
           createAuditLog
             {| entityType := "category";
                entityId := params_id req;
                action := "delete";
                userId := userId;
                userName := userName;
                previousData := Some existing;
                newData := None;
                changes := None;
                ipAddress := ipAddress;
                userAgent := userAgent |} ;;;
           res_json (j_success deleted)
       end)
      (catch_all "Failed to delete category")).

(** ** Assets *)

Definition post_assets : Request -> M Response :=
  isAuthenticated (fun req =>
    try_catch
      (data <- parse insertAssetSchema (body req) ;;
       existingAsset <- getAssetByTag (prop data "assetTag") ;;
       match existingAsset with
       | Some _ => res_status_json 400 (j_message "Asset tag already exists")
       | None =>
           asset <- createAsset data ;;
           let '(userId, userName) := getUserInfo req in
           let '(ipAddress, userAgent) := getClientInfo req in
           createAuditLog
             {| entityType := "asset";
                entityId := to_string (prop asset "id");
                action := "create";
                userId := userId;
                userName := userName;
                previousData := None;
                newData := Some asset;
                changes := None;
                ipAddress := ipAddress;
                userAgent := userAgent |} ;;;
           res_status_json 201 (j_record asset)
       end)
      (catch_zod "Failed to create asset")).

Definition patch_assets : Request -> M Response :=
  isAuthenticated (fun req =>
    try_catch
      (existing <- getAsset (params_id req) ;;
       match existing with
       | None => res_status_json 404 (j_message "Asset not found")
       | Some existing =>
           data <- parse_partial insertAssetSchema (body req) ;;
           existingAsset <-
             (if truthy (prop data "assetTag")
                 && strict_neq (prop data "assetTag") (prop existing "assetTag")
              then getAssetByTag (prop data "assetTag")
              else ret None) ;;
           match existingAsset with
           | Some _ =>
               res_status_json 400 (j_message "Asset tag already exists")
           | None =>
               asset <- updateAsset (params_id req) data ;;
               let '(userId, userName) := getUserInfo req in
               let '(ipAddress, userAgent) := getClientInfo req in
               createAuditLog
                 {| entityType := "asset";
                    entityId := params_id req;
                    action := "update";
                    userId := userId;
                    userName := userName;
                    previousData := Some existing;
                    newData := asset;
                    changes := Some (getChanges existing data);
                    ipAddress := ipAddress;
                    userAgent := userAgent |} ;;;
               res_json (match asset with
                         | Some r => j_record r
                         | None => j_undefined
                         end)
           end
       end)
      (catch_zod "Failed to update asset")).

Definition delete_assets : Request -> M Response :=
  isAuthenticated (fun req =>
    try_catch
      (existing <- getAsset (params_id req) ;;
       match existing with
       | None => res_status_json 404 (j_message "Asset not found")
       | Some existing =>
           deleted <- deleteAsset (params_id req) ;;
           let '(userId, userName) := getUserInfo req in
           let '(ipAddress, userAgent) := getClientInfo req in
           createAuditLog
             {| entityType := "asset";
                entityId := params_id req;
                action := "delete";
                userId := userId;
                userName := userName;
                previousData := Some existing;
                newData := None;
                changes := None;
                ipAddress := ipAddress;
                userAgent := userAgent |} ;;;
           res_json (j_success deleted)
       end)
      (catch_all "Failed to delete asset")).

(** ** Directory users *)

Definition post_ad_users : Request -> M Response :=
  isAuthenticated (fun req =>
    try_catch
      (data <- parse insertAdUserSchema (body req) ;;
       adUser <- createAdUser data ;;
       let '(userId, userName) := getUserInfo req in
       let '(ipAddress, userAgent) := getClientInfo req in
       createAuditLog
         {| entityType := "user";
            entityId := to_string (prop adUser "id");
            action := "create";
            userId := userId;
            userName := userName;
            previousData := None;
            newData := Some adUser;
            changes := None;
            ipAddress := ipAddress;
            userAgent := userAgent |} ;;;
       res_status_json 201 (j_record adUser))
      (catch_zod "Failed to create AD user")).

Definition patch_ad_users : Request -> M Response :=
  isAuthenticated (fun req =>
    try_catch
      (existing <- getAdUser (params_id req) ;;
       match existing with
       | None => res_status_json 404 (j_message "User not found")
       | Some existing =>
           data <- parse_partial insertAdUserSchema (body req) ;;
           adUser <- updateAdUser (params_id req) data ;;
           let '(userId, userName) := getUserInfo req in
           let '(ipAddress, userAgent) := getClientInfo req in
           createAuditLog
             {| entityType := "user";
                entityId := params_id req;
                action := "update";
                userId := userId;
                userName := userName;
                previousData := Some existing;
                newData := adUser;
                changes := Some (getChanges existing data);
                ipAddress := ipAddress;
                userAgent := userAgent |} ;;;
           res_json (match adUser with
                     | Some r => j_record r
                     | None => j_undefined
                     end)
       end)
      (catch_zod "Failed to update AD user")).

Definition delete_ad_users : Request -> M Response :=
  isAuthenticated (fun req =>
    try_catch
      (existing <- getAdUser (params_id req) ;;
       match existing with
       | None => res_status_json 404 (j_message "User not found")
       | Some existing =>
           deleted <- deleteAdUser (params_id req) ;;
           let '(userId, userName) := getUserInfo req in
           let '(ipAddress, userAgent) := getClientInfo req in
           createAuditLog
             {| entityType := "user";
                entityId := params_id req;
                action := "delete";
                userId := userId;
                userName := userName;
                previousData := Some existing;
                newData := None;
                changes := None;
                ipAddress := ipAddress;
                userAgent := userAgent |} ;;;
           res_json (j_success deleted)
       end)
      (catch_all "Failed to delete AD user")).

(** ** Directory synchronisation *)

Definition sync_user (ldapUser : Ldap.LdapUser) (counts : nat * nat)
    : M (nat * nat) :=
  let '(created, updated) := counts in
  existingUser <- getAdUserByEmail (VStr (Ldap.email ldapUser)) ;;
  let userData :=
    [ ("employeeId",
       VStr (string_or (Some (Ldap.employeeId ldapUser))
                       (Ldap.sAMAccountName ldapUser)));
      ("displayName", VStr (Ldap.displayName ldapUser));
      ("email", VStr (Ldap.email ldapUser));
      ("department", string_or_null (Ldap.department ldapUser));
      ("title", string_or_null (Ldap.title ldapUser));
      ("manager", string_or_null (Ldap.manager ldapUser));
      ("officeLocation", string_or_null (Ldap.officeLocation ldapUser));
      ("phone", string_or_null (Ldap.phone ldapUser));
      ("isActive", VBool true) ] in
  match existingUser with
  | Some existingUser =>
      updateAdUser (to_string (prop existingUser "id")) userData ;;;
      ret (created, S updated)
  | None =>
      createAdUser userData ;;;
      ret (S created, updated)
  end.

Definition post_ad_users_sync (env : Env) : Request -> M Response :=
  isAuthenticated (fun req =>
    try_catch
      (let '(userId, userName) := getUserInfo req in
       let '(ipAddress, userAgent) := getClientInfo req in
       match ldap env with
       | None =>
           createAuditLog
             {| entityType := "system";
                entityId := "ad-sync";
                action := "sync";
                userId := userId;
                userName := userName;
                previousData := None;
                newData :=
                  Some [("action",
                         VStr "AD Sync triggered (LDAP not configured - simulated)")];
                changes := None;
                ipAddress := ipAddress;
                userAgent := userAgent |} ;;;
           res_json
             (j_sync "AD sync simulated (LDAP not configured). Configure LDAP_URL, LDAP_BASE_DN, LDAP_BIND_DN, and LDAP_BIND_PASSWORD to enable real sync."
                0 0 0)
       | Some (inl message) => throw (Error message)
       | Some (inr ldapUsers) =>
           counts <- for_of ldapUsers sync_user (0, 0)%nat ;;
           let '(created, updated) := counts in
           createAuditLog
             {| entityType := "system";
                entityId := "ad-sync";
                action := "sync";
                userId := userId;
                userName := userName;
                previousData := None;
                newData :=
                  Some [("action", VStr "AD Sync completed");
                        ("totalUsers", VNum (Z.of_nat (List.length ldapUsers)));
                        ("created", VNum (Z.of_nat created));
                        ("updated", VNum (Z.of_nat updated))];
                changes := None;
                ipAddress := ipAddress;
                userAgent := userAgent |} ;;;
           res_json
             (j_sync ("AD sync completed. " ++ decimal created
                      ++ " users created, " ++ decimal updated
                      ++ " users updated.")%string
                (List.length ldapUsers) created updated)
       end)
      (fun error =>
         res_status_json 500
           (j_message ("Failed to sync AD: "
                       ++ match error with
                          | ZodError m | DatabaseError m | Error m => m
                          end)%string))).

(** ** Audit logs *)

Definition digit_of (radix : Z) (c : ascii) : option Z :=
  let n := Z.of_nat (nat_of_ascii c) in
  let d :=
    if (48 <=? n)%Z && (n <=? 57)%Z then Some (n - 48)%Z
    else if (97 <=? n)%Z && (n <=? 122)%Z then Some (n - 87)%Z
    else if (65 <=? n)%Z && (n <=? 90)%Z then Some (n - 55)%Z
    else None in
  match d with
  | Some d => if (d <? radix)%Z then Some d else None
  | None => None
  end.

(** The longest prefix of digits, [acc] being the digits read so far. *)
Fixpoint parse_digits (radix : Z) (s : string) (acc : option Z) : option Z :=
  match s with
  | EmptyString => acc
  | String c rest =>
      match digit_of radix c with
      | Some d =>
          parse_digits radix rest
            (Some (radix * match acc with Some a => a | None => 0 end + d)%Z)
      | None => acc
      end
  end.

(** [parseInt(s)] *)
Definition parseInt (s : string) : value :=
  let s := drop_while is_space s in
  let '(sign, s) :=
    match s with
    | String "-" rest => ((-1)%Z, rest)
    | String "+" rest => (1%Z, rest)
    | _ => (1%Z, s)
    end in
  let digits :=
    match s with
    | String "0" (String "x" rest) => parse_digits 16 rest None
    | String "0" (String "X" rest) => parse_digits 16 rest None
    | _ => parse_digits 10 s None
    end in
  match digits with
  | Some n => VNum (sign * n)
  | None => VNaN
  end.

Definition get_audit_logs (req : Request) : M Response :=
  try_catch
    (let limit :=
       match query_limit req with
       | Some q => if String.eqb q "" then VUndefined else parseInt q
       | None => VUndefined
       end in
     logs <- getAuditLogs limit ;;
     res_json (j_logs logs))
    (catch_all "Failed to fetch audit logs").

(** ** Import *)

(** A row of the request as the object it is. *)
Definition row_object (row : list (string * string)) : record :=
  map (fun kv => (fst kv, VStr (snd kv))) row.

(** [ASSET_STATUSES.includes(v)] *)
Definition is_asset_status (v : value) : bool :=
  existsb (fun s => strict_eq (VStr s) v) ASSET_STATUSES.

(** [const status = ...] of the loop body. *)
Definition import_status (row : record) : value :=
  if truthy (prop row "status") && is_asset_status (prop row "status")
  then prop row "status" else VStr "active".

(** [const assetData = {...}] of the loop body. *)
Definition import_assetData (categoryId : value) (row : record) : record :=
  [ ("assetTag", prop row "assetTag");
    ("name", prop row "name");
    ("description", or_else (prop row "description") VNull);
    ("categoryId", or_else categoryId VNull);
    ("status", import_status row);
    ("manufacturer", or_else (prop row "manufacturer") VNull);
    ("model", or_else (prop row "model") VNull);
    ("serialNumber", or_else (prop row "serialNumber") VNull);
    ("location", or_else (prop row "location") VNull);
    ("purchaseCost", or_else (prop row "purchaseCost") VNull);
    ("notes", or_else (prop row "notes") VNull) ].

(** The body of [for (const row of rows)], with its [try] and [catch]. *)
Definition import_row (req : Request) (categoryId : value) (row : record)
    (counts : nat * nat) : M (nat * nat) :=
  let '(success, failed) := counts in
  try_catch
    (if negb (truthy (prop row "assetTag")) || negb (truthy (prop row "name"))
     then ret (success, S failed)
     else
       existingAsset <- getAssetByTag (prop row "assetTag") ;;
       match existingAsset with
       | Some _ => ret (success, S failed)
       | None =>
           asset <- createAsset (import_assetData categoryId row) ;;
           let '(userId, userName) := getUserInfo req in
           let '(ipAddress, userAgent) := getClientInfo req in
           createAuditLog
             {| entityType := "asset";
                entityId := to_string (prop asset "id");
                action := "create";
                userId := userId;
                userName := userName;
                previousData := None;
                newData := Some (set asset "source" (VStr "import"));
                changes := None;
                ipAddress := ipAddress;
                userAgent := userAgent |} ;;;
           ret (S success, failed)
       end)
    (fun error => ret (success, S failed)).

Definition post_import : Request -> M Response :=
  isAuthenticated (fun req =>
    try_catch
      (let categoryId := prop (body req) "categoryId" in
       match body_rows req with
       | None => res_status_json 400 (j_message "Invalid import data")
       | Some rows =>
           counts <- for_of (map row_object rows)
                       (import_row req categoryId) (0, 0)%nat ;;
           let '(success, failed) := counts in
           let '(userId, userName) := getUserInfo req in
           let '(ipAddress, userAgent) := getClientInfo req in
           createAuditLog
             {| entityType := "system";
                entityId := "import";
                action := "import";
                userId := userId;
                userName := userName;
                previousData := None;
                newData :=
                  Some [("totalRows", VNum (Z.of_nat (List.length rows)));
                        ("success", VNum (Z.of_nat success));
                        ("failed", VNum (Z.of_nat failed))];
                changes := None;
                ipAddress := ipAddress;
                userAgent := userAgent |} ;;;
           res_json (j_import success failed (List.length rows))
       end)
      (catch_all "Failed to import data")).

(** ** Authentication *)

Definition post_auth_register (env : Env) (req : Request) : M Response :=
  try_catch
    (match registerSchema env (body req) with
     | inl message => throw (ZodError message)
     | inr data =>
         existingUser <- getUserByEmail (to_string (prop data "email")) ;;
         match existingUser with
         | Some _ => res_status_json 400 (j_message "Email already registered")
         | None =>
             user <- registerUser env
                       (to_string (prop data "email"))
                       (to_string (prop data "password"))
                       (to_string (prop data "firstName"))
                       (prop data "lastName") ;;
             if login_error env
             then res_status_json 500
                    (j_message "Failed to log in after registration")
             else res_status_json 201 (j_record user)
         end
     end)
    (catch_zod "Registration failed").

(** The local strategy is given [req.body.email] and [req.body.password],
    and fails without calling [verify] when one is missing. *)
Definition authenticate_local (env : Env) (req : Request) : M verified :=
  if negb (truthy (prop (body req) "email"))
     || negb (truthy (prop (body req) "password"))
  then ret (done_fail "Missing credentials")
  else
    match prop (body req) "email", prop (body req) "password" with
    | VStr email, VStr password => verify env email password
    | _, _ => ret (done_error (Error "email.toLowerCase is not a function"))
    end.

Definition post_auth_login (env : Env) (req : Request) : M Response :=
  match loginSchema env (body req) with
  | Some message => res_status_json 400 (j_message message)
  | None =>
      outcome <- authenticate_local env req ;;
      match outcome with
      | done_error _ => res_status_json 500 (j_message "Authentication error")
      | done_fail message => res_status_json 401 (j_message message)
      | done_user user =>
          if login_error env
          then res_status_json 500 (j_message "Login failed")
          else res_json (j_record user)
      end
  end.

Definition post_auth_logout (env : Env) (req : Request) : M Response :=
  if logout_error env
  then res_status_json 500 (j_message "Logout failed")
  else res_json (j_success true).

Definition get_auth_user : Request -> M Response :=
  isAuthenticated (fun req =>
    try_catch
      (match user req with
       | Some u =>
           user <- getUser (to_string (prop u "id")) ;;
           res_json (match user with
                     | Some user => j_record user
                     | None => j_undefined
                     end)
       | None => throw (Error "Cannot read properties of undefined")
       end)
      (catch_all "Failed to fetch user")).

(** ** The server *)

(** The routes that write, and the two that the properties below read
    through.  The remaining routes only select. *)
Inductive route :=
| POST_auth_register | POST_auth_login | POST_auth_logout | GET_auth_user
| POST_categories | PATCH_categories | DELETE_categories
| POST_assets | PATCH_assets | DELETE_assets
| POST_ad_users | PATCH_ad_users | DELETE_ad_users
| POST_ad_users_sync
| GET_audit_logs
| POST_import.

Definition handler (env : Env) (r : route) : Request -> M Response :=
  match r with
  | POST_auth_register => post_auth_register env
  | POST_auth_login => post_auth_login env
  | POST_auth_logout => post_auth_logout env
  | GET_auth_user => get_auth_user
  | POST_categories => post_categories
  | PATCH_categories => patch_categories
  | DELETE_categories => delete_categories
  | POST_assets => post_assets
  | PATCH_assets => patch_assets
  | DELETE_assets => delete_assets
  | POST_ad_users => post_ad_users
  | PATCH_ad_users => patch_ad_users
  | DELETE_ad_users => delete_ad_users
  | POST_ad_users_sync => post_ad_users_sync env
  | GET_audit_logs => get_audit_logs
  | POST_import => post_import
  end.

(** [passport.session()]: [req.user] is the sanitized user of the session,
    read from the database. *)
Definition passport_session (h : Http) : M Request :=
  match session h with
  | Some id => u <- deserializeUser id ;; ret (mkRequest h u)
  | None => ret (mkRequest h None)
  end.

(** One request served: the response and the database after it. *)
Definition serve (env : Env) (r : route) (h : Http) (s : db) : Response * db :=
  match (req <- passport_session h ;; handler env r req) s with
  | (inr response, s') => (response, s')
  | (inl _, s') => (mkResponse 500 (j_message "Internal Server Error"), s')
  end.

(** The states the server goes through. *)
Inductive step : db -> db -> Prop :=
| step_serve env r h s : step s (snd (serve env r h s)).

Inductive steps : db -> db -> Prop :=
| steps_refl s : steps s s
| steps_next s s' s'' : steps s s' -> step s' s'' -> steps s s''.

Definition reachable (s : db) : Prop := steps empty_db s.

(** The routes that create, update or delete one entity. *)
Definition is_crud (r : route) : bool :=
  match r with
  | POST_categories | PATCH_categories | DELETE_categories
  | POST_assets | PATCH_assets | DELETE_assets
  | POST_ad_users | PATCH_ad_users | DELETE_ad_users => true
  | _ => false
  end.

End Routes.

(* ===================================================================== *)
(** * What the specification says of the server                            *)
(* ===================================================================== *)

Module Spec.

Import Schema Diff Storage Auth Routes.

(** The row of table [t] with identifier [id]. *)
Definition lookup (t : table) (id : string) (s : db) : option record :=
  first (filter (hit (VStr id)) (rows_of t s)).

(** The user a session stands for. *)
Definition session_user (h : Http) (s : db) : option record :=
  match session h with
  | Some id =>
      match lookup users id s with
      | Some u => Some (sanitizeUser u)
      | None => None
      end
  | None => None
  end.

(** The routes that create, update or delete one entity: what they do, the
    table, the [entityType] they log and the schema they validate with. *)
Inductive operation := Create | Update | Delete.

Definition crud (r : route)
    : option (operation * table * string * list column) :=
  match r with
  | POST_categories =>
      Some (Create, categories, "category", insertCategorySchema)
  | PATCH_categories =>
      Some (Update, categories, "category", insertCategorySchema)
  | DELETE_categories =>
      Some (Delete, categories, "category", insertCategorySchema)
  | POST_assets => Some (Create, assets, "asset", insertAssetSchema)
  | PATCH_assets => Some (Update, assets, "asset", insertAssetSchema)
  | DELETE_assets => Some (Delete, assets, "asset", insertAssetSchema)
  | POST_ad_users => Some (Create, adUsers, "user", insertAdUserSchema)
  | PATCH_ad_users => Some (Update, adUsers, "user", insertAdUserSchema)
  | DELETE_ad_users => Some (Delete, adUsers, "user", insertAdUserSchema)
  | _ => None
  end.

(** A response that reports success. *)
Definition succeeded (resp : Response) : Prop :=
  status resp = 200%nat \/ status resp = 201%nat.

(** The audit record of a successful call of a route that creates, updates
    or deletes: a create stores the new record as [newData]; an update the
    old record as [previousData], the updated record as [newData] and the
    diff of the old record and the validated request as [changes]; a delete
    the old record as [previousData]. *)
Definition audited (r : route) (req : Request) (s s' : db)
    (resp : Response) (log : InsertAuditLog) : Prop :=
  match crud r with
  | Some (Create, t, type, schema) =>
      exists row data,
        parse_fields false schema (body req) = inr data
        /\ resp = mkResponse 201 (j_record row)
        /\ rows_of t s' = rows_of t s ++ [row]
        /\ entityType log = type
        /\ entityId log = to_string (prop row "id")
        /\ action log = "create"
        /\ previousData log = None
        /\ newData log = Some row
        /\ changes log = None
  | Some (Update, t, type, schema) =>
      exists old new data,
        lookup t (params_id req) s = Some old
        /\ parse_fields true schema (body req) = inr data
        /\ lookup t (params_id req) s' = Some new
        /\ resp = mkResponse 200 (j_record new)
        /\ entityType log = type
        /\ entityId log = params_id req
        /\ action log = "update"
        /\ previousData log = Some old
        /\ newData log = Some new
        /\ changes log = Some (getChanges old data)
  | Some (Delete, t, type, schema) =>
      exists old,
        lookup t (params_id req) s = Some old
        /\ lookup t (params_id req) s' = None
        /\ resp = mkResponse 200 (j_success true)
        /\ entityType log = type
        /\ entityId log = params_id req
        /\ action log = "delete"
        /\ previousData log = Some old
        /\ newData log = None
        /\ changes log = None
  | None => False
  end.

(** What a call of such a route comes to: a response, and either the
    database as it was and no success, or success and one more audit
    record, as described. *)
Definition outcome (r : route) (req : Request) (s : db)
    (result : (exn + Response) * db) : Prop :=
  exists resp s', result = (inr resp, s')
    /\ ((s' = s /\ ~ succeeded resp)
        \/ (succeeded resp /\ exists log,
              auditLogs s' = auditLogs s ++ [log]
              /\ audited r req s s' resp (logged log))).



(** The audit log only grows: what was written is still there, as it was
    written. *)
Definition grows (s s' : db) : Prop :=
  exists added, auditLogs s' = auditLogs s ++ added.

(** A computation that takes every database to one related to it by
    [P]. *)
Definition preserves {A} (P : db -> db -> Prop) (m : M A) : Prop :=
  forall s, P s (snd (m s)).

(** No two rows are equal on column [c]. *)
Definition distinct_on (c : string) (rows : list record) : Prop :=
  ForallOrdPairs (fun a b => sql_eq (prop a c) (prop b c) = false) rows.

(** The primary keys and the [unique()] columns of every table hold
    distinct values. *)
Definition constraints_hold (s : db) : Prop :=
  forall t c,
    In c (columns t) -> unique c || primaryKey c = true ->
    distinct_on (col_name c) (rows_of t s).

(** The constraints, once they hold, hold afterwards. *)
Definition keeps_constraints (s s' : db) : Prop :=
  constraints_hold s -> constraints_hold s'.

(** ** The import, row by row *)







(** ** Listing *)

Definition newest_first (logs : list AuditLog) : Prop :=
  Sorted (fun a b => (createdAt b <= createdAt a)%nat) logs.

(** The number a decimal numeral stands for, after the digits [a]. *)
Fixpoint numeral (d : Decimal.uint) (a : Z) : Z :=
  match d with
  | Decimal.Nil => a
  | Decimal.D0 d => numeral d (10 * a)
  | Decimal.D1 d => numeral d (10 * a + 1)
  | Decimal.D2 d => numeral d (10 * a + 2)
  | Decimal.D3 d => numeral d (10 * a + 3)
  | Decimal.D4 d => numeral d (10 * a + 4)
  | Decimal.D5 d => numeral d (10 * a + 5)
  | Decimal.D6 d => numeral d (10 * a + 6)
  | Decimal.D7 d => numeral d (10 * a + 7)
  | Decimal.D8 d => numeral d (10 * a + 8)
  | Decimal.D9 d => numeral d (10 * a + 9)
  end%Z.

End Spec.

(* ===================================================================== *)
(** * A small deployment, for examples                                     *)
(* ===================================================================== *)

Module Example.

Import Schema Storage Auth Routes.

(** A stand-in for the hashing library, no directory, schemas that accept
    every body. *)
Definition env : Env :=
  mkEnv (fun password => ("$2a$12$" ++ password)%string)
        (fun password hash => String.eqb ("$2a$12$" ++ password) hash)
        (fun body => inr body) (fun _ => None) false false None.

(** A request with the session of the first registered user. *)
Definition request (id : string) (body : record) : Http :=
  mkHttp (Some "uuid-0") (Some "10.0.0.7") None (Some "curl/8") id body
    None None.

Definition import_request (rows : list (list (string * string))) : Http :=
  mkHttp (Some "uuid-0") (Some "10.0.0.7") None (Some "curl/8") "" []
    (Some rows) None.

Definition listing (limit : option string) : Http :=
  mkHttp None (Some "10.0.0.7") None (Some "curl/8") "" [] None limit.

(** One user registered. *)
Definition db1 : db :=
  snd (serve env POST_auth_register
         (request "" [("email", VStr "Ann@Example.org");
                      ("password", VStr "secret");
                      ("firstName", VStr "Ann")])
         empty_db).

(** An asset whose tag is the empty string, then an asset tagged "T1". *)
Definition db2 : db :=
  snd (serve env POST_assets
         (request "" [("assetTag", VStr ""); ("name", VStr "spare")]) db1).

Definition db3 : db :=
  snd (serve env POST_assets
         (request "" [("assetTag", VStr "T1"); ("name", VStr "laptop")]) db2).

End Example.

(* ===================================================================== *)
(** * Properties                                                           *)
(* ===================================================================== *)

Import Diff Schema Storage Auth Routes Spec.

(** ** Values and strings *)

Lemma strict_eq_str (v : value) (s : string) :
  strict_eq v (VStr s) = true <-> v = VStr s.
Proof.
  destruct v; simpl; split; intro H; try discriminate; try congruence.
  - apply String.eqb_eq in H. now subst.
  - injection H as ->. apply String.eqb_refl.
Qed.

Lemma strict_eq_str_l (v : value) (s : string) :
  strict_eq (VStr s) v = true <-> v = VStr s.
Proof.
  destruct v; simpl; split; intro H; try discriminate; try congruence.
  - apply String.eqb_eq in H. now subst.
  - injection H as ->. apply String.eqb_refl.
Qed.

Lemma append_assoc (a b c : string) :
  ((a ++ b) ++ c)%string = (a ++ (b ++ c))%string.
Proof. induction a as [|x a IH]; simpl; [reflexivity | now rewrite IH]. Qed.

Lemma append_empty_r (a : string) : (a ++ "")%string = a.
Proof. induction a as [|x a IH]; simpl; [reflexivity | now rewrite IH]. Qed.

Lemma starts_with_spec (s sub : string) :
  starts_with s sub = true <-> exists post, s = (sub ++ post)%string.
Proof.
  revert s. induction sub as [|b sub IH]; intros s.
  - destruct s; simpl; (split; [intros _; eexists; reflexivity | reflexivity]).
  - destruct s as [|a s]; cbn [starts_with append].
    + split; [discriminate | intros [post H]; discriminate].
    + rewrite andb_true_iff, Ascii.eqb_eq, (IH s). split.
      * intros [-> [post ->]]. now exists post.
      * intros [post H]. injection H as -> ->. split; [reflexivity | now exists post].
Qed.

(** [includes] finds exactly the substrings. *)
Lemma includes_spec (s sub : string) :
  includes s sub = true <->
  exists pre post, s = (pre ++ sub ++ post)%string.
Proof.
  induction s as [|a s IH].
  - cbn [includes]. rewrite orb_false_r, starts_with_spec. split.
    + intros [post H]. now exists "", post.
    + intros [pre [post H]]. destruct pre; [now exists post | discriminate].
  - cbn [includes]. rewrite orb_true_iff, starts_with_spec, IH. split.
    + intros [[post H] | [pre [post H]]].
      * now exists "", post.
      * exists (String a pre), post. simpl. now rewrite H.
    + intros [pre [post H]]. destruct pre as [|x pre].
      * left. now exists post.
      * right. simpl in H. injection H as _ H. now exists pre, post.
Qed.

Lemma includes_false (s sub : string) :
  includes s sub = false <->
  ~ exists pre post, s = (pre ++ sub ++ post)%string.
Proof.
  rewrite <- includes_spec. destruct (includes s sub); split; intro H;
    congruence || (exfalso; now apply H).
Qed.

(** ** The audit diff *)

Lemma getChanges_loop_filter (oldData newData : record) (ks : list string)
    (acc : list change) :
  getChanges_loop oldData newData ks acc =
  acc ++ map (fun k => mkChange k (prop oldData k) (prop newData k))
             (filter (changed oldData newData) ks).
Proof.
  revert acc. induction ks as [|k ks IH]; intros acc; simpl.
  - now rewrite app_nil_r.
  - unfold changed at 1. destruct (strict_neq _ _); simpl.
    + rewrite IH, <- app_assoc. reflexivity.
    + apply IH.
Qed.

(** [getChanges] is the map of a filter of the keys of [newData]. *)
Lemma getChanges_filter (oldData newData : record) :
  getChanges oldData newData =
  map (fun k => mkChange k (prop oldData k) (prop newData k))
      (filter (changed oldData newData) (keys newData)).
Proof. unfold getChanges. now rewrite getChanges_loop_filter. Qed.

Lemma entries_for_count (oldData newData : record) (p : string -> bool)
    (ks : list string) (k : string) :
  NoDup ks ->
  List.length
    (entries_for k
       (map (fun k => mkChange k (prop oldData k) (prop newData k))
            (filter p ks))) =
  if existsb (String.eqb k) ks && p k then 1%nat else 0%nat.
Proof.
  intros Hnd. induction Hnd as [|x ks Hx Hnd IH]; [reflexivity|].
  cbn [filter existsb]. destruct (String.eqb_spec k x) as [->|Hne].
  - cbn [orb andb].
    assert (Hnone : forall q, List.length (entries_for x
              (map (fun k => mkChange k (prop oldData k) (prop newData k))
                 (filter q ks))) = 0%nat).
    { intros q. clear IH. induction ks as [|y ks IH']; [reflexivity|].
      cbn [filter]. apply not_in_cons in Hx as [Hxy Hx].
      inversion Hnd; subst.
      destruct (q y); cbn [map entries_for filter field]; auto.
      unfold entries_for in *. cbn [filter field].
      destruct (String.eqb_spec y x); [congruence | auto]. }
    destruct (p x); cbn [map]; unfold entries_for in *; cbn [filter field].
    + rewrite String.eqb_refl. cbn [List.length]. now rewrite Hnone.
    + apply Hnone.
  - cbn [orb]. destruct (p x); cbn [map]; unfold entries_for in *;
      cbn [filter field]; [|exact IH].
    destruct (String.eqb_spec x k); [congruence | exact IH].
Qed.

(** C2. [getChanges(oldData, newData)] compares field by field with [!==]:
    its entries are, in the order of [Object.keys(newData)], the keys of
    [newData] whose value differs from [oldData]'s value at that key, each
    with the old and the new value; a key has exactly one entry when it is a
    key of [newData] with a differing value and none otherwise, so keys of
    [oldData] alone and keys with equal values are not reported. *)
Theorem getChanges_shallow_diff (oldData newData : record)
    (Hwf : wf newData) :
  map field (getChanges oldData newData)
    = filter (changed oldData newData) (keys newData)
  /\ (forall c, In c (getChanges oldData newData) ->
        oldValue c = prop oldData (field c)
        /\ newValue c = prop newData (field c)
        /\ strict_eq (oldValue c) (newValue c) = false
        /\ In (field c) (keys newData))
  /\ (forall k,
        List.length (entries_for k (getChanges oldData newData))
        = if has_key newData k && changed oldData newData k
          then 1%nat else 0%nat).
Proof.
  rewrite getChanges_filter. split; [|split].
  - rewrite map_map. cbn [field]. apply map_id.
  - intros c Hc. apply in_map_iff in Hc as [k [<- Hk]].
    apply filter_In in Hk as [Hk Hch]. cbn [field oldValue newValue].
    repeat split; auto. unfold changed, strict_neq in Hch.
    now apply negb_true_iff in Hch.
  - intros k. unfold has_key. now apply entries_for_count.
Qed.

(** C2, on a concrete pair of records. *)
Lemma getChanges_shallow_diff_witness :
  map field (getChanges [("a", VNum 1); ("b", VStr "x"); ("gone", VNull)]
                        [("b", VStr "y"); ("a", VNum 1); ("c", VBool true)])
  = ["b"; "c"].
Proof.
  etransitivity.
  - apply (getChanges_shallow_diff
             [("a", VNum 1); ("b", VStr "x"); ("gone", VNull)]
             [("b", VStr "y"); ("a", VNum 1); ("c", VBool true)]).
    unfold wf. cbn [keys map fst].
    repeat constructor; cbn [In]; intuition discriminate.
  - reflexivity.
Defined.

(** ** The column-mapping heuristic *)

Section Similarity.

Import ImportPage.

Lemma length_append (a b : string) :
  String.length (a ++ b) = (String.length a + String.length b)%nat.
Proof. induction a as [|x a IH]; simpl; [reflexivity | now rewrite IH]. Qed.

Lemma get_append_here (pre : string) (c : ascii) (rest : string) :
  String.get (String.length pre) (pre ++ String c rest) = Some c.
Proof. induction pre as [|x pre IH]; simpl; [reflexivity | exact IH]. Qed.

(** The counting loop counts the characters of [shorter] that occur in
    [longer]. *)
Lemma count_matches_from_suffix (longer rest pre : string) (matches : nat) :
  count_matches_from (pre ++ rest) longer (String.length pre)
    (String.length rest) matches
  = (matches + List.length (filter (includes_char longer) (chars rest)))%nat.
Proof.
  revert pre matches. induction rest as [|c rest IH]; intros pre matches.
  - simpl. lia.
  - cbn [String.length count_matches_from]. rewrite get_append_here.
    assert (Hpre : (pre ++ String c rest)%string
                   = ((pre ++ String c "") ++ rest)%string)
      by now rewrite append_assoc.
    assert (Hlen : S (String.length pre)
                   = String.length (pre ++ String c ""))
      by (rewrite length_append; simpl; lia).
    rewrite Hpre, Hlen. cbn [chars filter].
    destruct (includes_char longer c); rewrite IH; cbn [List.length]; lia.
Qed.

Lemma count_matches_occurring (shorter longer : string) :
  count_matches_from shorter longer 0 (String.length shorter) 0
  = occurring shorter longer.
Proof. exact (count_matches_from_suffix longer shorter "" 0). Qed.

Lemma Qgtb_true (a b : Q) : Qgtb a b = true <-> b < a.
Proof.
  unfold Qgtb. rewrite negb_true_iff. split; intro H.
  - apply Qnot_le_lt. intro Hle. apply Qle_bool_iff in Hle. congruence.
  - destruct (Qle_bool a b) eqn:E; [|reflexivity].
    apply Qle_bool_iff in E. exfalso. exact (Qlt_not_le _ _ H E).
Qed.

Lemma Qgtb_false (a b : Q) : Qgtb a b = false <-> a <= b.
Proof.
  unfold Qgtb. rewrite negb_false_iff. apply Qle_bool_iff.
Qed.

(** What the loop of [suggestMapping] leaves in [bestMatch]: the initial
    value when no field scores more, else the first field of maximal
    score. *)
Lemma suggest_fold (header : string) (fs : list asset_field)
    (b : MappingSuggestion) :
  let r := fold_left (suggest_step header) fs b in
  (r = b /\ forall f, In f fs -> field_score header f <= confidence b)
  \/ (exists f, In f fs
        /\ r = mkSuggestion (key f) (field_score header f)
        /\ confidence b < field_score header f
        /\ forall g, In g fs -> field_score header g <= field_score header f).
Proof.
  revert b. induction fs as [|f fs IH]; intros b; cbn zeta.
  - left. split; [reflexivity | intros f []].
  - cbn [fold_left].
    assert (Hstep : suggest_step header b f
                    = if Qgtb (field_score header f) (confidence b)
                      then mkSuggestion (key f) (field_score header f)
                      else b) by reflexivity.
    rewrite Hstep. clear Hstep.
    destruct (Qgtb (field_score header f) (confidence b)) eqn:E.
    + apply Qgtb_true in E.
      destruct (IH (mkSuggestion (key f) (field_score header f)))
        as [[Hr Hall] | [g [Hg [Hr [Hlt Hall]]]]]; cbn [confidence] in *.
      * right. exists f. split; [now left|]. split; [exact Hr|].
        split; [exact E|].
        intros g [<- | Hg]; [apply Qle_refl | now apply Hall].
      * right. exists g. split; [now right|]. split; [exact Hr|]. split.
        -- eapply Qlt_trans; eassumption.
        -- intros h [<- | Hh]; [now apply Qlt_le_weak | now apply Hall].
    + apply Qgtb_false in E.
      destruct (IH b) as [[Hr Hall] | [g [Hg [Hr [Hlt Hall]]]]].
      * left. split; [assumption|].
        intros g [<- | Hg]; [assumption | now apply Hall].
      * right. exists g. split; [now right|]. split; [exact Hr|].
        split; [exact Hlt|].
        intros h [<- | Hh]; [|now apply Hall].
        apply Qlt_le_weak. eapply Qle_lt_trans; eassumption.
Qed.

(** C5, as the code has it.  After lowercasing and removing underscores,
    hyphens and whitespace, the similarity of two strings is 1 when the
    normalized strings are equal, 0.8 when one contains the other, and
    otherwise the number of characters of the shorter normalized string that
    occur somewhere in the longer one divided by the length of the longer
    one.  [suggestMapping] returns the field whose score (the larger of the
    similarities with its key and its label) is maximal, with that score,
    when the maximum reaches the threshold 0.4, and the empty suggestion
    with confidence 0 otherwise. *)
Theorem similarity_and_suggestion (str1 str2 header : string) :
  let s1 := normalize str1 in
  let s2 := normalize str2 in
  (s1 = s2 -> calculateSimilarity str1 str2 = 1)
  /\ (s1 <> s2 -> contains s1 s2 \/ contains s2 s1 ->
      calculateSimilarity str1 str2 = 8 # 10)
  /\ (s1 <> s2 -> ~ contains s1 s2 -> ~ contains s2 s1 ->
      (0 < String.length (longer_of s1 s2))%nat
      /\ calculateSimilarity str1 str2 = fraction_of_longer str1 str2)
  /\ ((forall f, In f ASSET_FIELDS ->
         field_score header f < SIMILARITY_THRESHOLD) ->
      suggestMapping header = mkSuggestion "" 0)
  /\ ((exists f, In f ASSET_FIELDS
         /\ SIMILARITY_THRESHOLD <= field_score header f) ->
      exists f, In f ASSET_FIELDS
        /\ suggestMapping header = mkSuggestion (key f) (field_score header f)
        /\ SIMILARITY_THRESHOLD <= field_score header f
        /\ forall g, In g ASSET_FIELDS ->
             field_score header g <= field_score header f).
Proof.
  cbn zeta. unfold calculateSimilarity, contains.
  split; [|split; [|split; [|split]]].
  - intros ->. now rewrite String.eqb_refl.
  - intros Hne Hc. apply String.eqb_neq in Hne. rewrite Hne.
    assert (H : includes (normalize str1) (normalize str2)
                || includes (normalize str2) (normalize str1) = true).
    { apply orb_true_iff. destruct Hc as [Hc | Hc]; [left | right];
        now apply includes_spec. }
    now rewrite H.
  - intros Hne H12 H21. pose proof Hne as Hne'.
    apply String.eqb_neq in Hne. rewrite Hne.
    apply includes_false in H12, H21. rewrite H12, H21. cbn [orb].
    split.
    + unfold longer_of.
      destruct (normalize str1) as [|a s1], (normalize str2) as [|b s2];
        try (exfalso; congruence).
      * destruct (String.length "" <? String.length (String b s2))%nat;
          simpl; lia || (destruct s2; discriminate).
      * simpl in H12. destruct s1; discriminate.
      * destruct (String.length (String a s1) <? String.length (String b s2))%nat;
          simpl; lia.
    + rewrite count_matches_occurring. reflexivity.
  - intros Hall. unfold suggestMapping.
    destruct (suggest_fold header ASSET_FIELDS (mkSuggestion "" 0))
      as [[Hr _] | [f [Hf [Hr _]]]]; cbn zeta in Hr; rewrite Hr;
      cbn [confidence].
    + reflexivity.
    + destruct (Qle_bool SIMILARITY_THRESHOLD (field_score header f)) eqn:E;
        [|reflexivity].
      apply Qle_bool_iff in E. exfalso.
      exact (Qlt_not_le _ _ (Hall f Hf) E).
  - intros [f0 [Hf0 Hge]]. unfold suggestMapping.
    destruct (suggest_fold header ASSET_FIELDS (mkSuggestion "" 0))
      as [[Hr Hall] | [f [Hf [Hr [Hlt Hall]]]]]; cbn zeta in Hr; rewrite Hr;
      cbn [confidence] in *.
    + exfalso. specialize (Hall f0 Hf0).
      assert (H : SIMILARITY_THRESHOLD <= 0) by (eapply Qle_trans; eassumption).
      revert H. unfold SIMILARITY_THRESHOLD, Qle. simpl. lia.
    + assert (H : SIMILARITY_THRESHOLD <= field_score header f)
        by (eapply Qle_trans; [exact Hge | now apply Hall]).
      pose proof H as Hb. apply Qle_bool_iff in Hb. rewrite Hb.
      exists f. split; [exact Hf|]. split; [reflexivity|].
      split; [exact H | exact Hall].
Qed.

(** C5 on concrete strings: an equal pair, a containing pair, a pair scored
    by counting, and two headers. *)
Lemma similarity_and_suggestion_witness :
  calculateSimilarity "Asset_Tag" "asset tag" = 1
  /\ calculateSimilarity "tag" "Asset Tag" = 8 # 10
  /\ calculateSimilarity "ab" "acde" = fraction_of_longer "ab" "acde"
  /\ suggestMapping "zzz" = mkSuggestion "" 0
  /\ exists f, In f ASSET_FIELDS
       /\ suggestMapping "tag" = mkSuggestion (key f) (field_score "tag" f).
Proof.
  pose proof (similarity_and_suggestion "Asset_Tag" "asset tag" "zzz")
    as [H1 [_ [_ [H4 _]]]].
  pose proof (similarity_and_suggestion "tag" "Asset Tag" "tag")
    as [_ [H2 [_ [_ H5]]]].
  pose proof (similarity_and_suggestion "ab" "acde" "tag")
    as [_ [_ [H3 _]]].
  cbn zeta in *. split; [|split; [|split; [|split]]].
  - apply H1. reflexivity.
  - apply H2; [discriminate|]. right. exists "asset", "". reflexivity.
  - apply H3.
    + discriminate.
    + apply includes_false. reflexivity.
    + apply includes_false. reflexivity.
  - apply H4. intros f Hf. cbn [In ASSET_FIELDS] in Hf.
    repeat (destruct Hf as [<- | Hf]; [vm_compute; reflexivity|]).
    destruct Hf.
  - destruct H5 as [f [Hf [Hs _]]].
    + exists (mkField "assetTag" "Asset Tag" true). split; [now left|].
      vm_compute. discriminate.
    + exists f. split; assumption.
Defined.

(** C5 as the specification words its third case fails: on "ab" and "acde"
    neither normalized string contains the other, one of the two characters
    of the shorter occurs in the longer, and the similarity is 1/4, not the
    fraction 1/2 of the characters of the shorter string. *)
Lemma similarity_not_fraction_of_shorter :
  normalize "ab" <> normalize "acde"
  /\ includes (normalize "ab") (normalize "acde") = false
  /\ includes (normalize "acde") (normalize "ab") = false
  /\ calculateSimilarity "ab" "acde" = 1 # 4
  /\ fraction_of_shorter "ab" "acde" = 1 # 2
  /\ ~ calculateSimilarity "ab" "acde" == fraction_of_shorter "ab" "acde".
Proof.
  split; [discriminate|]. do 4 (split; [reflexivity|]).
  vm_compute. discriminate.
Qed.

End Similarity.

(** ** Role derivation *)

Section Roles.

Import Ldap.

Lemma group_set_spec (g : option string) :
  group_set g = true <-> exists d, g = Some d /\ d <> "".
Proof.
  destruct g as [d|]; simpl.
  - rewrite negb_true_iff, String.eqb_neq. split.
    + intros H. now exists d.
    + intros [d' [[= <-] H]]. exact H.
  - split; [discriminate | intros [d [H _]]; discriminate].
Qed.

Lemma some_includes_spec (ms : list string) (d : string) :
  existsb (fun g => includes g (toLowerCase d)) (map toLowerCase ms) = true
  <-> exists m, In m ms /\ contains_ci m d.
Proof.
  rewrite existsb_exists. unfold contains_ci. split.
  - intros [g [Hg Hi]]. apply in_map_iff in Hg as [m [<- Hm]].
    exists m. split; [assumption | now apply includes_spec].
  - intros [m [Hm Hc]]. exists (toLowerCase m). split.
    + now apply in_map.
    + now apply includes_spec.
Qed.

(** The test the code makes for a group is membership in it. *)
Lemma group_test_spec (u : LdapUser) (g : option string) :
  group_set g
  && existsb (fun m => includes m (toLowerCase (group_dn g)))
       (map toLowerCase (memberOf u)) = true
  <-> member_of_group u g.
Proof.
  rewrite andb_true_iff, group_set_spec, some_includes_spec.
  unfold member_of_group. split.
  - intros [[d [-> Hd]] Hm]. exists d. auto.
  - intros [d [-> [Hd Hm]]]. split; [now exists d | exact Hm].
Qed.

(** C7. [getUserRole] returns "admin" when the admin group is configured
    and some [memberOf] entry contains it, case ignored; otherwise
    "readonly" when the read-only group is configured and some entry
    contains it; otherwise "user".  Admin membership wins over read-only
    membership. *)
Theorem getUserRole_by_membership (u : LdapUser) (config : LdapConfig) :
  (member_of_group u (adminGroupDN config) -> getUserRole u config = admin)
  /\ (~ member_of_group u (adminGroupDN config) ->
      member_of_group u (readOnlyGroupDN config) ->
      getUserRole u config = readonly)
  /\ (~ member_of_group u (adminGroupDN config) ->
      ~ member_of_group u (readOnlyGroupDN config) ->
      getUserRole u config = user).
Proof.
  unfold getUserRole.
  pose proof (group_test_spec u (adminGroupDN config)) as Ha.
  pose proof (group_test_spec u (readOnlyGroupDN config)) as Hr.
  destruct (group_set (adminGroupDN config) && _);
    destruct (group_set (readOnlyGroupDN config) && _);
    split; [| split | | split | | split | | split]; intros;
    try reflexivity;
    try (exfalso; intuition congruence).
Qed.

(** C7 on a user in both groups, a user in the read-only group and a user
    in neither. *)
Lemma getUserRole_by_membership_witness :
  let config :=
    mkLdapConfig "ldap://dc" "dc=corp" "cn=svc" "secret" "(objectClass=user)"
      "(objectClass=group)" (Some "CN=Admins,DC=corp") None
      (Some "cn=readers,dc=corp") in
  let person groups :=
    mkLdapUser "cn=p" "7" "P" "p@corp" "p" None None None None None groups in
  getUserRole (person ["cn=admins,dc=CORP"; "CN=Readers,DC=corp"]) config
    = admin
  /\ getUserRole (person ["CN=Readers,DC=corp"]) config = readonly
  /\ getUserRole (person ["cn=staff,dc=corp"]) config = user.
Proof.
  cbn zeta. split; [|split].
  - apply getUserRole_by_membership.
    exists "CN=Admins,DC=corp". split; [reflexivity|]. split; [discriminate|].
    exists "cn=admins,dc=CORP". split; [now left|]. now exists "", "".
  - apply getUserRole_by_membership.
    + intro H. apply group_test_spec in H. discriminate.
    + exists "cn=readers,dc=corp". split; [reflexivity|]. split; [discriminate|].
      exists "CN=Readers,DC=corp". split; [now left|]. now exists "", "".
  - apply getUserRole_by_membership.
    + intro H. apply group_test_spec in H. discriminate.
    + intro H. apply group_test_spec in H. discriminate.
Defined.

End Roles.

Local Close Scope Q_scope.

(** ** Statements of the database *)

Lemma db_insert_cases (t : table) (data : record) (s : db) :
  (exists e, db_insert t data s = (inl e, s))
  \/ db_insert t data s
     = (inr (new_row (columns t) data (clock s)),
        commit t (rows_of t s ++ [new_row (columns t) data (clock s)]) s).
Proof.
  unfold db_insert.
  destruct (not_null_ok _ _); cbn [negb]; [|left; eauto].
  destruct (unique_ok _ _ _); cbn [negb]; [|left; eauto].
  destruct (foreign_keys_ok _ _ _); cbn [negb]; [|left; eauto].
  right. auto.
Qed.

Lemma db_update_cases (t : table) (id : value) (values : record) (s : db) :
  (exists e, db_update t id values s = (inl e, s))
  \/ db_update t id values s
     = (inr (map (updated_row values) (filter (hit id) (rows_of t s))),
        commit t (map (fun r => if hit id r then updated_row values r else r)
                      (rows_of t s)) s).
Proof.
  unfold db_update.
  destruct (forallb (not_null_ok _) _); cbn [negb]; [|left; eauto].
  destruct (forallb (unique_ok _ _) _); cbn [negb]; [|left; eauto].
  destruct (forallb (foreign_keys_ok _ _) _); cbn [negb]; [|left; eauto].
  right. auto.
Qed.

Lemma db_delete_cases (t : table) (id : value) (s : db) :
  (filter (hit id) (rows_of t s) = [] /\ db_delete t id s = (inr [], s))
  \/ (filter (hit id) (rows_of t s) <> []
      /\ ((exists e, db_delete t id s = (inl e, s))
          \/ db_delete t id s
             = (inr (filter (hit id) (rows_of t s)),
                commit t (filter (fun r => negb (hit id r)) (rows_of t s)) s))).
Proof.
  unfold db_delete.
  destruct (filter (hit id) (rows_of t s)) eqn:E; [left; auto|].
  right. split; [discriminate|].
  destruct (referenced t id s); [left; eauto | right; reflexivity].
Qed.

Lemma rows_of_commit (t : table) (rows : list record) (s : db) :
  rows_of t (commit t rows s) = rows.
Proof. destruct t; reflexivity. Qed.

Lemma auditLogs_commit (t : table) (rows : list record) (s : db) :
  auditLogs (commit t rows s) = auditLogs s.
Proof. destruct t; reflexivity. Qed.

(** The parsed data has no key outside the schema. *)
Lemma parse_fields_keys (partial : bool) (cols : list column)
    (body data : record) (k : string) :
  parse_fields partial cols body = inr data ->
  ~ In k (map col_name cols) -> prop data k = VUndefined.
Proof.
  revert data. induction cols as [|c cols IH]; intros data; cbn [parse_fields].
  - intros [= <-] _. reflexivity.
  - destruct (check_field _ _ _); [discriminate|].
    destruct (parse_fields partial cols body) as [|d]; [discriminate|].
    intros [= <-] Hk. cbn [map In] in Hk.
    assert (Hne : col_name c <> k) by tauto.
    assert (Hr : prop d k = VUndefined) by (apply IH; [reflexivity | tauto]).
    destruct (has_key _ _); [|exact Hr].
    cbn [prop]. apply String.eqb_neq in Hne. now rewrite Hne.
Qed.

Lemma prop_set_other (o : record) (k k' : string) (v : value) :
  k' <> k -> prop (set o k' v) k = prop o k.
Proof.
  intros Hne. induction o as [|[k0 v0] o IH]; cbn [set prop].
  - apply String.eqb_neq in Hne. now rewrite Hne.
  - destruct (String.eqb_spec k0 k'); cbn [prop].
    + subst. apply String.eqb_neq in Hne. now rewrite Hne.
    + now rewrite IH.
Qed.

Lemma updated_row_prop (values r : record) (k : string) :
  prop values k = VUndefined -> prop (updated_row values r) k = prop r k.
Proof.
  intros Hv. unfold updated_row.
  induction r as [|[k0 v0] r IH]; cbn [map prop fst snd]; [reflexivity|].
  destruct (String.eqb_spec k0 k); [subst; now rewrite Hv | exact IH].
Qed.

(** An update that does not set [id] touches the rows it selected. *)
Lemma filter_hit_updated (id : value) (values : record)
    (rows : list record) :
  prop values "id" = VUndefined ->
  filter (hit id)
    (map (fun r => if hit id r then updated_row values r else r) rows)
  = map (updated_row values) (filter (hit id) rows).
Proof.
  intros Hv. induction rows as [|r rows IH]; [reflexivity|].
  cbn [map filter]. destruct (hit id r) eqn:E.
  - unfold hit at 1. rewrite updated_row_prop by assumption. fold (hit id r).
    rewrite E. cbn [map]. now rewrite IH.
  - rewrite E. exact IH.
Qed.

Lemma first_map {A B} (f : A -> B) (l : list A) :
  first (map f l) = option_map f (first l).
Proof. destruct l; reflexivity. Qed.

Lemma filter_hit_deleted (id : value) (rows : list record) :
  filter (hit id) (filter (fun r => negb (hit id r)) rows) = [].
Proof.
  induction rows as [|r rows IH]; [reflexivity|]. cbn [filter].
  destruct (hit id r) eqn:E; cbn [negb filter]; [exact IH|]. now rewrite E.
Qed.

(** ** The routes that create, update or delete *)

Ltac unfold_monad :=
  cbv beta iota zeta delta
    [bind try_catch ret throw res_json res_status_json isAuthenticated
     catch_zod catch_all parse parse_partial
     getCategory createCategory updateCategory deleteCategory
     getAsset getAssetByTag createAsset updateAsset deleteAsset
     getAdUser getAdUserByEmail createAdUser updateAdUser deleteAdUser
     db_select new_Date].

Lemma not_in_schema_id (schema : list column) :
  existsb (fun c => String.eqb (col_name c) "id") schema = false ->
  ~ In "id" (map col_name schema).
Proof.
  intros H Hin. apply in_map_iff in Hin as [c [Hc Hin]].
  assert (existsb (fun c => String.eqb (col_name c) "id") schema = true).
  { apply existsb_exists. exists c. split; [assumption|]. now rewrite Hc. }
  congruence.
Qed.

(** After an update through a schema without [id], the row found under the
    identifier is the updated old row, which is also what the statement
    returns. *)
Lemma updated_lookup (t : table) (id : string) (schema : list column)
    (body data : record) (now : value) (s : db) (old : record) :
  existsb (fun c => String.eqb (col_name c) "id") schema = false ->
  parse_fields true schema body = inr data ->
  lookup t id s = Some old ->
  let values := set data "updatedAt" now in
  first (map (updated_row values) (filter (hit (VStr id)) (rows_of t s)))
    = Some (updated_row values old)
  /\ lookup t id
       (commit t
          (map (fun r => if hit (VStr id) r then updated_row values r else r)
               (rows_of t s)) s)
     = Some (updated_row values old).
Proof.
  intros Hs Hp Hl values. unfold lookup in *.
  assert (Hv : prop values "id" = VUndefined).
  { unfold values. rewrite prop_set_other by discriminate.
    eapply parse_fields_keys; [exact Hp | now apply not_in_schema_id]. }
  rewrite rows_of_commit, filter_hit_updated by exact Hv.
  rewrite first_map, Hl. split; reflexivity.
Qed.

Lemma deleted_lookup (t : table) (id : string) (s : db) (old : record) :
  lookup t id s = Some old ->
  filter (hit (VStr id)) (rows_of t s) <> []
  /\ (0 <? List.length (filter (hit (VStr id)) (rows_of t s)))%nat = true
  /\ lookup t id
       (commit t (filter (fun r => negb (hit (VStr id) r)) (rows_of t s)) s)
     = None.
Proof.
  unfold lookup. intros Hl. rewrite rows_of_commit, filter_hit_deleted.
  destruct (filter _ _); [discriminate|].
  split; [discriminate|]. split; reflexivity.
Qed.

(** The call ends without success and without a write. *)
Ltac failed :=
  do 2 eexists; split; [reflexivity|]; left; split; [reflexivity|];
  unfold succeeded; cbn [status]; intros [?|?]; discriminate.

(** The insert went through: the audit record follows. *)
Ltac created Hp :=
  match goal with
  | |- context [db_insert ?t ?data ?s] =>
      let e := fresh "e" in
      destruct (db_insert_cases t data s) as [[e ->] | ->];
      [destruct e; failed|]
  end;
  destruct (getUserInfo _), (getClientInfo _); cbn [createAuditLog];
  do 2 eexists; split; [reflexivity|]; right; split; [right; reflexivity|];
  eexists; split; [reflexivity|];
  unfold audited; cbn [crud logged]; do 2 eexists;
  split; [exact Hp|];
  do 7 (split; [reflexivity|]); reflexivity.

Ltac updated Hp Hex :=
  match goal with
  | |- context [db_update ?t ?id ?v ?s] =>
      let e := fresh "e" in
      destruct (db_update_cases t id v s) as [[e ->] | ->];
      [destruct e; failed|]
  end;
  destruct (getUserInfo _), (getClientInfo _); cbn [createAuditLog];
  let Hfirst := fresh "Hfirst" in
  let Hlook := fresh "Hlook" in
  match goal with
  | |- context [commit ?t (map (fun r => if hit (VStr ?id) r
                                         then updated_row (set ?data _ ?now) r
                                         else r) _) ?s] =>
      match type of Hp with
      | parse_fields _ ?schema ?body = _ =>
          destruct (updated_lookup t id schema body data now s _
                      eq_refl Hp Hex) as [Hfirst Hlook]
      end
  end;
  cbv zeta in Hfirst, Hlook; rewrite Hfirst;
  do 2 eexists; split; [reflexivity|]; right; split; [left; reflexivity|];
  eexists; split; [reflexivity|];
  unfold audited; cbn [crud logged]; do 3 eexists;
  split; [exact Hex|]; split; [exact Hp|]; split; [exact Hlook|];
  do 6 (split; [reflexivity|]); reflexivity.

Ltac deleted Hex :=
  let Hne := fresh "Hne" in
  let Hlen := fresh "Hlen" in
  let Hlook := fresh "Hlook" in
  let Hnil := fresh "Hnil" in
  match goal with
  | |- context [db_delete ?t (VStr ?id) ?s] =>
      destruct (deleted_lookup t id s _ Hex) as [Hne [Hlen Hlook]];
      let e := fresh "e" in
      destruct (db_delete_cases t (VStr id) s)
        as [[Hnil _] | [_ [[e ->] | ->]]];
      [contradiction | destruct e; failed |]
  end;
  destruct (getUserInfo _), (getClientInfo _); cbn [createAuditLog];
  rewrite Hlen;
  do 2 eexists; split; [reflexivity|]; right; split; [left; reflexivity|];
  eexists; split; [reflexivity|];
  unfold audited; cbn [crud logged]; eexists;
  split; [exact Hex|]; split; [exact Hlook|];
  do 6 (split; [reflexivity|]); reflexivity.

(** The row the handler looked up under [:id]. *)
Ltac existing t s Hex :=
  let existing := fresh "existing" in
  destruct (first (filter (fun r => sql_eq (prop r "id") _) (rows_of t s)))
    as [existing|] eqn:Hex; [|failed].

Lemma post_categories_outcome (req : Request) (s : db) :
  outcome POST_categories req s (post_categories req s).
Proof.
  unfold post_categories. unfold_monad.
  destruct (user req); [|failed].
  destruct (parse_fields false _ (body req)) as [m|data] eqn:Hp; [failed|].
  created Hp.
Qed.

Lemma patch_categories_outcome (req : Request) (s : db) :
  outcome PATCH_categories req s (patch_categories req s).
Proof.
  unfold patch_categories. unfold_monad.
  destruct (user req); [|failed].
  existing categories s Hex.
  destruct (parse_fields true _ (body req)) as [m|data] eqn:Hp; [failed|].
  updated Hp Hex.
Qed.

Lemma delete_categories_outcome (req : Request) (s : db) :
  outcome DELETE_categories req s (delete_categories req s).
Proof.
  unfold delete_categories. unfold_monad.
  destruct (user req); [|failed].
  existing categories s Hex.
  deleted Hex.
Qed.

Lemma post_assets_outcome (req : Request) (s : db) :
  outcome POST_assets req s (post_assets req s).
Proof.
  unfold post_assets. unfold_monad.
  destruct (user req); [|failed].
  destruct (parse_fields false _ (body req)) as [m|data] eqn:Hp; [failed|].
  unfold_monad.
  match goal with
  | |- context [first (filter ?f ?l)] => destruct (first (filter f l))
  end; [failed|].
  created Hp.
Qed.

Lemma patch_assets_outcome (req : Request) (s : db) :
  outcome PATCH_assets req s (patch_assets req s).
Proof.
  unfold patch_assets. unfold_monad.
  destruct (user req); [|failed].
  existing assets s Hex.
  destruct (parse_fields true _ (body req)) as [m|data] eqn:Hp; [failed|].
  destruct (truthy (prop data "assetTag") && _).
  - unfold_monad.
    match goal with
    | |- context [first (filter ?f ?l)] => destruct (first (filter f l))
    end; [failed|].
    updated Hp Hex.
  - updated Hp Hex.
Qed.

Lemma delete_assets_outcome (req : Request) (s : db) :
  outcome DELETE_assets req s (delete_assets req s).
Proof.
  unfold delete_assets. unfold_monad.
  destruct (user req); [|failed].
  existing assets s Hex.
  deleted Hex.
Qed.

Lemma post_ad_users_outcome (req : Request) (s : db) :
  outcome POST_ad_users req s (post_ad_users req s).
Proof.
  unfold post_ad_users. unfold_monad.
  destruct (user req); [|failed].
  destruct (parse_fields false _ (body req)) as [m|data] eqn:Hp; [failed|].
  created Hp.
Qed.

Lemma patch_ad_users_outcome (req : Request) (s : db) :
  outcome PATCH_ad_users req s (patch_ad_users req s).
Proof.
  unfold patch_ad_users. unfold_monad.
  destruct (user req); [|failed].
  existing adUsers s Hex.
  destruct (parse_fields true _ (body req)) as [m|data] eqn:Hp; [failed|].
  updated Hp Hex.
Qed.

Lemma delete_ad_users_outcome (req : Request) (s : db) :
  outcome DELETE_ad_users req s (delete_ad_users req s).
Proof.
  unfold delete_ad_users. unfold_monad.
  destruct (user req); [|failed].
  existing adUsers s Hex.
  deleted Hex.
Qed.

(** Every call of a route that creates, updates or deletes either fails and
    writes nothing, or succeeds and writes its audit record. *)
Lemma crud_outcome (env : Env) (r : route) (req : Request) (s : db) :
  crud r <> None -> outcome r req s (handler env r req s).
Proof.
  destruct r; cbn [crud handler]; intros H; try congruence.
  - apply post_categories_outcome.
  - apply patch_categories_outcome.
  - apply delete_categories_outcome.
  - apply post_assets_outcome.
  - apply patch_assets_outcome.
  - apply delete_assets_outcome.
  - apply post_ad_users_outcome.
  - apply patch_ad_users_outcome.
  - apply delete_ad_users_outcome.
Qed.

(** A request served is its handler run on the request with the user of
    the session. *)
Lemma serve_handler (env : Env) (r : route) (h : Http) (s : db) :
  serve env r h s =
  match handler env r (mkRequest h (session_user h s)) s with
  | (inr response, s') => (response, s')
  | (inl _, s') => (mkResponse 500 (j_message "Internal Server Error"), s')
  end.
Proof.
  unfold serve, passport_session, session_user, deserializeUser, lookup.
  destruct (session h) as [id|]; [|reflexivity].
  unfold bind, db_select, ret. cbn [rows_of].
  change (fun r0 : record => sql_eq (prop r0 "id") (VStr id))
    with (hit (VStr id)).
  destruct (first (filter (hit (VStr id)) (users_rows s))); reflexivity.
Qed.

(** C8. In the routes that create, update or delete, validation comes
    before the write and an error changes nothing: when the response is 400
    (the body fails the schema, or the asset tag is taken) or 404 (no entity
    under [:id]), the database after the call is the database before it, so
    nothing was created, modified or deleted and no audit record written;
    and whenever the body fails the schema the handler reaches, the database
    is unchanged. *)
Theorem error_leaves_database (env : Env) (r : route) (h : Http) (s : db) :
  crud r <> None ->
  (status (fst (serve env r h s)) = 400%nat
   \/ status (fst (serve env r h s)) = 404%nat ->
   snd (serve env r h s) = s)
  /\ (forall op t type schema message,
        crud r = Some (op, t, type, schema) ->
        op <> Delete ->
        parse_fields (match op with Update => true | _ => false end)
          schema (body h) = inl message ->
        snd (serve env r h s) = s).
Proof.
  intros Hr. rewrite serve_handler.
  destruct (crud_outcome env r (mkRequest h (session_user h s)) s Hr)
    as [resp [s' [-> [[-> Hfail] | [Hok [log [Hlog Haud]]]]]]];
    cbn [fst snd].
  - split; auto.
  - split.
    + destruct Hok as [Hok | Hok]; rewrite Hok; intros [?|?]; discriminate.
    + intros op t type schema message Hc Hop Hp. exfalso.
      unfold audited in Haud. rewrite Hc in Haud. cbn [http body] in *.
      destruct op.
      * destruct Haud as [row [data [Hp' _]]]. congruence.
      * destruct Haud as [old [new [data [_ [Hp' _]]]]]. congruence.
      * congruence.
Qed.

(** C8 on a request to create an asset without a name. *)
Lemma error_leaves_database_witness :
  snd (serve Example.env POST_assets
         (Example.request "" [("assetTag", VStr "T9")]) Example.db3)
  = Example.db3.
Proof.
  apply (error_leaves_database Example.env POST_assets
           (Example.request "" [("assetTag", VStr "T9")]) Example.db3).
  - discriminate.
  - left. reflexivity.
Defined.

(** ** The import *)

Lemma strict_eq_true (a b : value) : strict_eq a b = true -> a = b.
Proof.
  destruct a, b; cbn [strict_eq]; try discriminate; intros H; try reflexivity.
  - apply Bool.eqb_prop in H. now subst.
  - apply Z.eqb_eq in H. now subst.
  - apply String.eqb_eq in H. now subst.
  - apply andb_true_iff in H as [Hk Hr]. apply Nat.eqb_eq in Hr. subst.
    destruct k, k0; try discriminate; reflexivity.
Qed.

Lemma sql_eq_true (a b : value) : sql_eq a b = true -> a = b.
Proof.
  unfold sql_eq. intros H. apply andb_true_iff in H as [_ H].
  now apply strict_eq_true.
Qed.


Lemma first_filter_some {A} (f : A -> bool) (l : list A) (a : A) :
  first (filter f l) = Some a -> In a l /\ f a = true.
Proof.
  intros H. apply filter_In. destruct (filter f l); [discriminate|].
  injection H as ->. now left.
Qed.

Lemma first_filter_none {A} (f : A -> bool) (l : list A) :
  first (filter f l) = None -> forall a, In a l -> f a = false.
Proof.
  intros H a Ha. destruct (f a) eqn:E; [|reflexivity].
  assert (In a (filter f l)) by (apply filter_In; auto).
  destruct (filter f l); [contradiction | discriminate].
Qed.











(** ** The audit trail of the calls that change something *)




(** ** What every request preserves *)

Section Preservation.

(** A relation between the database before and after, reflexive and
    transitive, that the four writing statements respect. *)
Variable P : db -> db -> Prop.
Hypothesis P_refl : forall s, P s s.
Hypothesis P_trans : forall s1 s2 s3, P s1 s2 -> P s2 s3 -> P s1 s3.
Hypothesis P_insert : forall t data, preserves P (db_insert t data).
Hypothesis P_update :
  forall t id values, preserves P (db_update t id values).
Hypothesis P_delete : forall t id, preserves P (db_delete t id).
Hypothesis P_log : forall data, preserves P (createAuditLog data).

Lemma preserves_ret {A} (a : A) : preserves P (ret a).
Proof. intros s. apply P_refl. Qed.

Lemma preserves_throw {A} (e : exn) : preserves P (@throw A e).
Proof. intros s. apply P_refl. Qed.

Lemma preserves_bind {A B} (m : M A) (k : A -> M B) :
  preserves P m -> (forall a, preserves P (k a)) -> preserves P (bind m k).
Proof.
  intros Hm Hk s. unfold bind. specialize (Hm s).
  destruct (m s) as [[e|a] s1]; cbn [snd] in *; [exact Hm|].
  eapply P_trans; [exact Hm | apply Hk].
Qed.

Lemma preserves_try_catch {A} (m : M A) (h : exn -> M A) :
  preserves P m -> (forall e, preserves P (h e)) ->
  preserves P (try_catch m h).
Proof.
  intros Hm Hh s. unfold try_catch. specialize (Hm s).
  destruct (m s) as [[e|a] s1]; cbn [snd] in *; [|exact Hm].
  eapply P_trans; [exact Hm | apply Hh].
Qed.

Lemma preserves_for_of {A B} (xs : list A) (body : A -> B -> M B)
    (acc : B) :
  (forall x b, preserves P (body x b)) -> preserves P (for_of xs body acc).
Proof.
  intros Hb. revert acc. induction xs as [|x xs IH]; intros acc; cbn [for_of].
  - apply preserves_ret.
  - apply preserves_bind; [apply Hb | exact IH].
Qed.

Lemma preserves_db_select (t : table) (c : string) (v : value) :
  preserves P (db_select t c v).
Proof. intros s. apply P_refl. Qed.

Lemma preserves_new_Date : preserves P new_Date.
Proof. intros s. apply P_refl. Qed.

Lemma preserves_getAuditLogs (limit : value) :
  preserves P (getAuditLogs limit).
Proof.
  intros s. unfold getAuditLogs.
  destruct (truthy limit); [|apply P_refl].
  destruct limit; try apply P_refl.
  destruct (n <? 0)%Z; apply P_refl.
Qed.

Lemma preserves_getAuditLogsByEntity (type id : string) :
  preserves P (getAuditLogsByEntity type id).
Proof. intros s. apply P_refl. Qed.

Create HintDb preserves.
#[local] Hint Resolve preserves_ret preserves_throw preserves_db_select
  preserves_new_Date P_insert P_update P_delete P_log
  preserves_getAuditLogs preserves_getAuditLogsByEntity : preserves.

(** One step through a computation: its binds, handlers, loops and
    branches. *)
Ltac preserves_step :=
  match goal with
  | |- preserves _ (bind _ _) => apply preserves_bind; [|intros ?]
  | |- preserves _ (try_catch _ _) => apply preserves_try_catch; [|intros ?]
  | |- preserves _ (for_of _ _ _) => apply preserves_for_of; intros ? ?
  | |- preserves _ (let _ := _ in _) => cbv beta zeta
  | |- preserves _ (match ?x with _ => _ end) => destruct x
  | |- preserves _ (if ?b then _ else _) => destruct b
  | |- preserves _ _ => solve [auto with preserves]
  end.

Lemma preserves_handler (env : Env) (r : route) (req : Request) :
  preserves P (handler env r req).
Proof.
  destruct r; cbn [handler];
    cbv beta delta
      [post_auth_register post_auth_login post_auth_logout get_auth_user
       post_categories patch_categories delete_categories
       post_assets patch_assets delete_assets
       post_ad_users patch_ad_users delete_ad_users
       post_ad_users_sync get_audit_logs post_import
       isAuthenticated catch_zod catch_all res_json res_status_json
       parse parse_partial sync_user import_row authenticate_local verify
       registerUser getUserByEmail getUser
       getCategory createCategory updateCategory deleteCategory
       getAsset getAssetByTag createAsset updateAsset deleteAsset
       getAdUser getAdUserByEmail createAdUser updateAdUser deleteAdUser];
    repeat preserves_step.
Qed.

Lemma preserves_passport_session (h : Http) :
  preserves P (passport_session h).
Proof.
  unfold passport_session, deserializeUser. repeat preserves_step.
Qed.

Lemma preserves_serve (env : Env) (r : route) (h : Http) (s : db) :
  P s (snd (serve env r h s)).
Proof.
  unfold serve.
  assert (H : preserves P
                (bind (passport_session h) (fun req => handler env r req))).
  { apply preserves_bind; [apply preserves_passport_session|].
    intros req. apply preserves_handler. }
  specialize (H s).
  destruct (bind (passport_session h) (fun req => handler env r req) s)
    as [[e|resp] s']; exact H.
Qed.

Lemma preserves_steps (s s' : db) : steps s s' -> P s s'.
Proof.
  induction 1 as [s | s s1 s2 _ IH Hstep].
  - apply P_refl.
  - eapply P_trans; [exact IH|]. destruct Hstep. apply preserves_serve.
Qed.

Lemma preserves_run_call (c : storage_call) (s : db) : P s (run_call c s).
Proof.
  destruct c; cbn [run_call]; try apply P_refl; unfold after;
    match goal with
    | |- P ?s (snd (?m ?s)) =>
        let H := fresh in
        assert (H : preserves P m); [|exact (H s)]
    end;
    cbv beta delta
      [getCategory createCategory updateCategory deleteCategory
       getAsset getAssetByTag createAsset updateAsset deleteAsset
       getAdUser getAdUserByEmail createAdUser updateAdUser deleteAdUser
       createImportTemplate];
    repeat preserves_step.
Qed.

End Preservation.

(** ** The audit log only grows *)

Lemma grows_refl (s : db) : grows s s.
Proof. exists []. now rewrite app_nil_r. Qed.

Lemma grows_trans (s1 s2 s3 : db) :
  grows s1 s2 -> grows s2 s3 -> grows s1 s3.
Proof.
  intros [a Ha] [b Hb]. exists (a ++ b). now rewrite Hb, Ha, app_assoc.
Qed.

Lemma grows_commit (t : table) (rows : list record) (s : db) :
  grows s (commit t rows s).
Proof. exists []. now rewrite auditLogs_commit, app_nil_r. Qed.

Lemma grows_db_insert (t : table) (data : record) :
  preserves grows (db_insert t data).
Proof.
  intros s. destruct (db_insert_cases t data s) as [[e ->] | ->]; cbn [snd].
  - apply grows_refl.
  - apply grows_commit.
Qed.

Lemma grows_db_update (t : table) (id : value) (values : record) :
  preserves grows (db_update t id values).
Proof.
  intros s.
  destruct (db_update_cases t id values s) as [[e ->] | ->]; cbn [snd].
  - apply grows_refl.
  - apply grows_commit.
Qed.

Lemma grows_db_delete (t : table) (id : value) :
  preserves grows (db_delete t id).
Proof.
  intros s.
  destruct (db_delete_cases t id s) as [[_ ->] | [_ [[e ->] | ->]]];
    cbn [snd].
  - apply grows_refl.
  - apply grows_refl.
  - apply grows_commit.
Qed.

Lemma grows_createAuditLog (data : InsertAuditLog) :
  preserves grows (createAuditLog data).
Proof. intros s. cbn. eexists. reflexivity. Qed.

Lemma grows_serve (env : Env) (r : route) (h : Http) (s : db) :
  grows s (snd (serve env r h s)).
Proof.
  apply preserves_serve.
  - exact grows_refl.
  - exact grows_trans.
  - exact grows_db_insert.
  - exact grows_db_update.
  - exact grows_db_delete.
  - exact grows_createAuditLog.
Qed.

Lemma grows_steps (s s' : db) : steps s s' -> grows s s'.
Proof.
  apply preserves_steps.
  - exact grows_refl.
  - exact grows_trans.
  - exact grows_db_insert.
  - exact grows_db_update.
  - exact grows_db_delete.
  - exact grows_createAuditLog.
Qed.

Lemma grows_run_call (c : storage_call) (s : db) : grows s (run_call c s).
Proof.
  apply preserves_run_call.
  - exact grows_refl.
  - exact grows_trans.
  - exact grows_db_insert.
  - exact grows_db_update.
  - exact grows_db_delete.
  - exact grows_createAuditLog.
Qed.

(** C6. Audit logs are immutable.  No call of the storage interface and no
    request changes or removes an audit record: the log after it is the log
    before it with records added at the end.  So in every reachable state,
    a record of the log is found, as it was written, in the log of every
    later state. *)
Theorem audit_logs_immutable :
  (forall c s, grows s (run_call c s))
  /\ (forall env r h s, grows s (snd (serve env r h s)))
  /\ (forall s s' n log,
        reachable s -> steps s s' ->
        nth_error (auditLogs s) n = Some log ->
        nth_error (auditLogs s') n = Some log).
Proof.
  split; [exact grows_run_call|]. split; [exact grows_serve|].
  intros s s' n log _ Hsteps Hn.
  destruct (grows_steps s s' Hsteps) as [added ->].
  rewrite nth_error_app1; [exact Hn|].
  apply nth_error_Some. congruence.
Qed.

Lemma reachable_db3 : reachable Example.db3.
Proof.
  unfold reachable.
  eapply steps_next; [eapply steps_next; [eapply steps_next;
    [apply steps_refl|] |] |]; unfold Example.db3, Example.db2, Example.db1;
    apply step_serve.
Defined.

(** C6 on the deletion of an asset: the record of its creation stays. *)
Lemma audit_logs_immutable_witness :
  let s' := snd (serve Example.env DELETE_assets (Example.request "uuid-1" [])
                  Example.db3) in
  exists log,
    nth_error (auditLogs Example.db3) 0 = Some log
    /\ entityId (logged log) = "uuid-1"
    /\ assets_rows s' <> assets_rows Example.db3
    /\ nth_error (auditLogs s') 0 = Some log.
Proof.
  intros s'. eexists. split; [vm_compute; reflexivity|].
  split; [reflexivity|]. split; [vm_compute; discriminate|].
  apply (proj2 (proj2 audit_logs_immutable) Example.db3 s' 0%nat).
  - exact reachable_db3.
  - eapply steps_next; [apply steps_refl | apply step_serve].
  - vm_compute. reflexivity.
Defined.

(** ** Listing the audit log *)

Lemma insert_desc_perm (l : AuditLog) (ls : list AuditLog) :
  Permutation (insert_desc l ls) (l :: ls).
Proof.
  induction ls as [|x xs IH]; cbn [insert_desc]; [reflexivity|].
  destruct (createdAt x <? createdAt l)%nat; [reflexivity|].
  rewrite IH. apply perm_swap.
Qed.

Lemma orderBy_perm (ls : list AuditLog) :
  Permutation (orderBy_desc_createdAt ls) ls.
Proof.
  induction ls as [|x xs IH]; cbn; [constructor|].
  fold (orderBy_desc_createdAt xs). rewrite insert_desc_perm. now constructor.
Qed.

Lemma insert_desc_sorted (l : AuditLog) (ls : list AuditLog) :
  newest_first ls -> newest_first (insert_desc l ls).
Proof.
  unfold newest_first. induction 1 as [|x xs Hs IH Hd]; cbn [insert_desc].
  - repeat constructor.
  - destruct (createdAt x <? createdAt l)%nat eqn:E.
    + apply Nat.ltb_lt in E. constructor; [now constructor|].
      constructor. lia.
    + apply Nat.ltb_ge in E. constructor; [exact IH|].
      destruct xs as [|y ys]; cbn [insert_desc].
      * constructor. exact E.
      * destruct (createdAt y <? createdAt l)%nat; constructor;
          [exact E | now inversion Hd].
Qed.

Lemma orderBy_sorted (ls : list AuditLog) :
  newest_first (orderBy_desc_createdAt ls).
Proof.
  induction ls as [|x xs IH]; cbn; [constructor|].
  apply insert_desc_sorted. exact IH.
Qed.

Lemma newest_first_strong (ls : list AuditLog) :
  newest_first ls ->
  StronglySorted (fun a b => (createdAt b <= createdAt a)%nat) ls.
Proof.
  apply Sorted_StronglySorted. intros a b c Hab Hbc. lia.
Qed.

Lemma firstn_sorted (n : nat) (ls : list AuditLog) :
  newest_first ls -> newest_first (firstn n ls).
Proof.
  unfold newest_first. revert n.
  induction ls as [|x xs IH]; intros n Hs; destruct n; cbn [firstn];
    try constructor.
  - apply IH. now inversion Hs.
  - inversion Hs as [|? ? _ Hd]; subst.
    destruct xs, n; cbn [firstn]; constructor. now inversion Hd.
Qed.

Lemma firstn_newest (n : nat) (ls : list AuditLog) (a b : AuditLog) :
  newest_first ls -> In a (firstn n ls) -> In b (skipn n ls) ->
  (createdAt b <= createdAt a)%nat.
Proof.
  intros Hs. apply newest_first_strong in Hs. revert n.
  induction Hs as [|x xs Hs IH Hall]; intros n Ha Hb.
  - destruct n; contradiction.
  - destruct n; [contradiction|]. cbn [firstn skipn] in Ha, Hb.
    destruct Ha as [<- | Ha].
    + rewrite Forall_forall in Hall. apply Hall.
      rewrite <- (firstn_skipn n xs). apply in_or_app. now right.
    + now apply (IH n).
Qed.

Lemma get_audit_logs_serve (env : Env) (h : Http) (s : db) :
  serve env GET_audit_logs h s =
  match getAuditLogs
          (match query_limit h with
           | Some q => if String.eqb q "" then VUndefined else parseInt q
           | None => VUndefined
           end) s with
  | (inr logs, s') => (mkResponse 200 (j_logs logs), s')
  | (inl _, s') =>
      (mkResponse 500 (j_message "Failed to fetch audit logs"), s')
  end.
Proof.
  rewrite serve_handler. cbn [handler]. unfold get_audit_logs.
  cbv beta zeta delta [try_catch bind res_json ret catch_all res_status_json http query_limit].
  destruct (getAuditLogs _ s) as [[e|logs] s']; reflexivity.
Qed.

Lemma parse_digits_numeral (d : Decimal.uint) (a : Z) :
  parse_digits 10 (NilEmpty.string_of_uint d) (Some a) = Some (numeral d a).
Proof.
  revert a. induction d; intros a; cbn [NilEmpty.string_of_uint numeral];
    [reflexivity | ..];
    cbn [parse_digits];
    match goal with
    | |- context [digit_of 10 ?c] =>
        let v := eval vm_compute in (digit_of 10 c) in
        change (digit_of 10 c) with v
    end; cbv iota beta; rewrite IHd; f_equal; f_equal; lia.
Qed.

Lemma numeral_of_uint_acc (d : Decimal.uint) (a : nat) :
  numeral d (Z.of_nat a) = Z.of_nat (Nat.of_uint_acc d a).
Proof.
  revert a. induction d; intros a; cbn [numeral Nat.of_uint_acc];
    [reflexivity | ..];
    rewrite Nat.tail_mul_spec, <- IHd; f_equal; lia.
Qed.

Lemma parseInt_numeral (d : Decimal.uint) :
  d <> Decimal.Nil ->
  parseInt (NilEmpty.string_of_uint d) = VNum (numeral d 0).
Proof.
  intros Hd. destruct d; try congruence; clear Hd;
    cbn [NilEmpty.string_of_uint];
    unfold parseInt; cbn [drop_while];
    match goal with
    | |- context [is_space ?c] =>
        let v := eval vm_compute in (is_space c) in
        change (is_space c) with v
    end; cbv iota beta.
  all: try (cbn [parse_digits];
    match goal with
    | |- context [digit_of 10 ?c] =>
        let v := eval vm_compute in (digit_of 10 c) in
        change (digit_of 10 c) with v
    end; cbv iota beta; rewrite parse_digits_numeral;
    cbn [numeral]; rewrite Z.mul_1_l; reflexivity).
  destruct d; cbn [NilEmpty.string_of_uint]; cbv iota beta;
    cbn [parse_digits];
    repeat match goal with
    | |- context [digit_of 10 ?c] =>
        let v := eval vm_compute in (digit_of 10 c) in
        change (digit_of 10 c) with v
    end; cbv iota beta; rewrite ?parse_digits_numeral.
  all: cbn [numeral]; rewrite Z.mul_1_l; reflexivity.
Qed.

Lemma parseInt_decimal (n : nat) : parseInt (decimal n) = VNum (Z.of_nat n).
Proof.
  unfold decimal. destruct n as [|n]; [reflexivity|].
  rewrite parseInt_numeral.
  - change 0%Z with (Z.of_nat 0). rewrite numeral_of_uint_acc.
    f_equal. f_equal. apply Unsigned.of_to.
  - intros H. pose proof (Unsigned.of_to (S n)) as Hn.
    rewrite H in Hn. discriminate Hn.
Qed.

(** C9. [getAuditLogs] with a positive limit [n] returns at most [n]
    records, the newest first: the first [n] of the log in descending order
    of [createdAt], none of them older than a record left out; so does
    [GET /api/audit-logs?limit=n].  With the limit 0, which is falsy, it
    returns the whole log, as it does without a limit. *)
Theorem audit_log_listing (env : Env) (h : Http) (s : db) :
  let newest := orderBy_desc_createdAt (auditLogs s) in
  (Permutation newest (auditLogs s) /\ newest_first newest)
  /\ (forall n : nat,
        (0 < n)%nat ->
        getAuditLogs (VNum (Z.of_nat n)) s = (inr (firstn n newest), s)
        /\ (List.length (firstn n newest) <= n)%nat
        /\ newest_first (firstn n newest)
        /\ (forall a b, In a (firstn n newest) -> In b (skipn n newest) ->
              (createdAt b <= createdAt a)%nat)
        /\ (query_limit h = Some (decimal n) ->
            serve env GET_audit_logs h s
            = (mkResponse 200 (j_logs (firstn n newest)), s)))
  /\ getAuditLogs (VNum 0) s = (inr newest, s)
  /\ getAuditLogs VUndefined s = (inr newest, s)
  /\ (query_limit h = Some "0" \/ query_limit h = None ->
      serve env GET_audit_logs h s = (mkResponse 200 (j_logs newest), s)).
Proof.
  cbv zeta. split; [split; [apply orderBy_perm | apply orderBy_sorted]|].
  split; [|split; [reflexivity | split; [reflexivity|]]].
  - intros n Hn.
    assert (Hget : getAuditLogs (VNum (Z.of_nat n)) s
                   = (inr (firstn n (orderBy_desc_createdAt (auditLogs s))),
                      s)).
    { unfold getAuditLogs. cbn [truthy].
      destruct (Z.eqb_spec (Z.of_nat n) 0) as [E|E]; [lia|]. cbn [negb].
      destruct (Z.ltb_spec (Z.of_nat n) 0) as [E'|E']; [lia|].
      now rewrite Nat2Z.id. }
    split; [exact Hget|]. split; [apply firstn_le_length|].
    split; [apply firstn_sorted, orderBy_sorted|].
    split; [intros a b; apply firstn_newest, orderBy_sorted|].
    intros Hq. rewrite get_audit_logs_serve, Hq.
    destruct (String.eqb_spec (decimal n) "") as [E|E].
    + pose proof (parseInt_decimal n) as Hp. rewrite E in Hp. discriminate Hp.
    + now rewrite parseInt_decimal, Hget.
  - intros [Hq | Hq]; rewrite get_audit_logs_serve, Hq; reflexivity.
Qed.

(** C9 on a log of three records: limit 2 gives the two newest, limit 0
    all three. *)
Lemma audit_log_listing_witness :
  map createdAt
    match fst (serve Example.env GET_audit_logs (Example.listing (Some "2"))
                 Example.db3) with
    | mkResponse _ (j_logs logs) => logs
    | _ => []
    end = [4; 2]%nat
  /\ fst (serve Example.env GET_audit_logs (Example.listing (Some "0"))
            Example.db3)
     = fst (serve Example.env GET_audit_logs (Example.listing None)
              Example.db3).
Proof.
  pose proof (audit_log_listing Example.env (Example.listing (Some "2"))
                Example.db3) as [_ [H2 _]].
  pose proof (audit_log_listing Example.env (Example.listing (Some "0"))
                Example.db3) as [_ [_ [_ [_ H0]]]].
  pose proof (audit_log_listing Example.env (Example.listing None)
                Example.db3) as [_ [_ [_ [_ HN]]]].
  cbv zeta in *. split.
  - destruct (H2 2%nat) as [_ [_ [_ [_ Hs]]]]; [lia|].
    rewrite Hs; [|reflexivity]. vm_compute. reflexivity.
  - rewrite H0, HN; [reflexivity | now right | now left].
Defined.

(** ** The password hash stays in the database *)

Lemma without_has_key (o : record) (k : string) :
  has_key (without o k) k = false.
Proof.
  unfold has_key, without, keys.
  induction o as [|[k0 v0] o IH]; [reflexivity|]. cbn [filter fst].
  destruct (String.eqb_spec k0 k) as [E|E]; cbn [negb]; [exact IH|].
  cbn [map existsb fst]. rewrite IH, orb_false_r.
  apply String.eqb_neq. congruence.
Qed.

Lemma without_prop (o : record) (k k' : string) :
  prop (without o k) k' = if String.eqb k k' then VUndefined else prop o k'.
Proof.
  unfold without. induction o as [|[k0 v0] o IH]; cbn [filter prop fst].
  - now destruct (String.eqb k k').
  - destruct (String.eqb_spec k0 k) as [E|E]; cbn [negb prop].
    + subst k0. rewrite IH. now destruct (String.eqb k k').
    + destruct (String.eqb_spec k0 k') as [E'|E']; [|exact IH].
      subst k0. apply not_eq_sym in E. apply String.eqb_neq in E.
      now rewrite E.
Qed.

Lemma without_keys (o : record) (k : string) :
  keys (without o k) = filter (fun k' => negb (String.eqb k' k)) (keys o).
Proof.
  unfold without, keys. induction o as [|[k0 v0] o IH]; [reflexivity|].
  cbn [filter map fst]. destruct (String.eqb k0 k); cbn [negb map fst];
    now rewrite IH.
Qed.

(** A user object that went through [sanitizeUser]. *)
Lemma sanitized_no_password (u : record) :
  (exists row, u = sanitizeUser row) -> has_key u "password" = false.
Proof. intros [row ->]. apply without_has_key. Qed.

(** The body a route sends is no user object, or one that went through
    [sanitizeUser]. *)
Ltac no_user := intros u Hu; cbn [sent] in Hu; discriminate Hu.

Ltac sanitized_user :=
  let u := fresh "u" in
  let Hu := fresh "Hu" in
  intros u Hu; cbn [sent] in Hu;
  match type of Hu with
  | j_record (sanitizeUser ?r) = j_record _ =>
      exists r; split; [|congruence]
  end.

Lemma register_sends_sanitized (env : Env) (req : Request) (s : db) :
  match post_auth_register env req s with
  | (inr resp, s') =>
      forall u, sent resp = j_record u ->
      exists row, In row (users_rows s') /\ u = sanitizeUser row
  | (inl _, _) => True
  end.
Proof.
  unfold post_auth_register, registerUser, getUserByEmail. unfold_monad.
  destruct (registerSchema env (body req)) as [m|data]; [no_user|].
  unfold_monad.
  match goal with
  | |- context [first (filter ?f ?l)] => destruct (first (filter f l))
  end; [no_user|].
  match goal with
  | |- context [db_insert ?t ?d ?s] =>
      destruct (db_insert_cases t d s) as [[e ->] | ->]
  end; [destruct e; no_user|].
  destruct (login_error env); [no_user|]. sanitized_user.
  rewrite (rows_of_commit users). apply in_or_app. right. now left.
Qed.

Lemma login_sends_sanitized (env : Env) (req : Request) (s : db) :
  match post_auth_login env req s with
  | (inr resp, s') =>
      forall u, sent resp = j_record u ->
      exists row, In row (users_rows s') /\ u = sanitizeUser row
  | (inl _, _) => True
  end.
Proof.
  unfold post_auth_login, authenticate_local, verify. unfold_monad.
  destruct (loginSchema env (body req)); [no_user|].
  destruct (negb _ || negb _); [no_user|].
  destruct (prop (body req) "email"); try no_user.
  destruct (prop (body req) "password"); try no_user.
  unfold_monad.
  match goal with
  | |- context [first (filter ?f ?l)] =>
      destruct (first (filter f l)) as [row|] eqn:Hrow
  end; [|no_user].
  destruct (negb (truthy _)); [no_user|].
  destruct (prop row "password"); try no_user.
  destruct (negb (bcrypt_compare _ _ _)); [no_user|].
  destruct (login_error env); [no_user|]. sanitized_user.
  now apply first_filter_some in Hrow as [Hin _].
Qed.

Lemma current_user_sends_sanitized (req : Request) (s : db) :
  match get_auth_user req s with
  | (inr resp, s') =>
      forall u, sent resp = j_record u ->
      exists row, In row (users_rows s') /\ u = sanitizeUser row
  | (inl _, _) => True
  end.
Proof.
  unfold get_auth_user, getUser. unfold_monad.
  destruct (user req); [|no_user].
  match goal with
  | |- context [first (filter ?f ?l)] =>
      destruct (first (filter f l)) as [row|] eqn:Hrow
  end; [|no_user]. sanitized_user.
  now apply first_filter_some in Hrow as [Hin _].
Qed.

(** C10. [sanitizeUser] returns the record without its [password] field
    and with every other field as it was.  Every user object the register,
    login and current-user routes send, and the user the session middleware
    puts in [req.user], is a row of the users table that went through
    [sanitizeUser]: it has no [password] field, so the stored hash is in no
    response of these routes. *)
Theorem password_never_sent (env : Env) (h : Http) (s : db) :
  (forall user,
     has_key (sanitizeUser user) "password" = false
     /\ prop (sanitizeUser user) "password" = VUndefined
     /\ (forall k, k <> "password" ->
           prop (sanitizeUser user) k = prop user k)
     /\ keys (sanitizeUser user)
        = filter (fun k => negb (String.eqb k "password")) (keys user))
  /\ (forall r u,
        r = POST_auth_register \/ r = POST_auth_login \/ r = GET_auth_user ->
        sent (fst (serve env r h s)) = j_record u ->
        (exists row, In row (users_rows (snd (serve env r h s)))
                     /\ u = sanitizeUser row)
        /\ has_key u "password" = false
        /\ prop u "password" = VUndefined)
  /\ (forall req s' u,
        passport_session h s = (inr req, s') ->
        user req = Some u ->
        (exists row, In row (users_rows s) /\ u = sanitizeUser row)
        /\ has_key u "password" = false).
Proof.
  split; [|split].
  - intros u. unfold sanitizeUser. split; [apply without_has_key|].
    split; [now rewrite without_prop|]. split; [|apply without_keys].
    intros k Hk. rewrite without_prop.
    apply not_eq_sym in Hk. apply String.eqb_neq in Hk. now rewrite Hk.
  - intros r u Hr. rewrite serve_handler.
    destruct (handler env r (mkRequest h (session_user h s)) s)
      as [[e|resp] s'] eqn:Hh; cbn [fst snd sent]; [discriminate|].
    intros Hu.
    assert (Hrow : exists row, In row (users_rows s') /\ u = sanitizeUser row).
    { destruct Hr as [-> | [-> | ->]]; cbn [handler] in Hh.
      - pose proof (register_sends_sanitized env
                      (mkRequest h (session_user h s)) s) as H.
        rewrite Hh in H. now apply H.
      - pose proof (login_sends_sanitized env
                      (mkRequest h (session_user h s)) s) as H.
        rewrite Hh in H. now apply H.
      - pose proof (current_user_sends_sanitized
                      (mkRequest h (session_user h s)) s) as H.
        rewrite Hh in H. now apply H. }
    split; [exact Hrow|]. destruct Hrow as [row [_ ->]].
    split; [apply without_has_key|].
    unfold sanitizeUser. now rewrite without_prop.
  - intros req s' u. unfold passport_session, deserializeUser. unfold_monad.
    destruct (session h) as [id|]; [|intros [= <- _]; discriminate].
    match goal with
    | |- context [first (filter ?f ?l)] =>
        destruct (first (filter f l)) as [row|] eqn:Hrow
    end; intros [= <- _]; cbn [user]; [|discriminate].
    intros [= <-]. split; [|apply without_has_key].
    exists row. split; [|reflexivity].
    now apply first_filter_some in Hrow as [Hin _].
Qed.

(** C10 on a login: the body sent is the user row without its hash. *)
Lemma password_never_sent_witness :
  let h := Example.request "" [("email", VStr "ann@example.org");
                               ("password", VStr "secret")] in
  exists u,
    fst (serve Example.env POST_auth_login h Example.db3)
    = mkResponse 200 (j_record u)
    /\ prop u "email" = VStr "ann@example.org"
    /\ has_key u "password" = false.
Proof.
  intros h. eexists. split; [vm_compute; reflexivity|].
  split; [reflexivity|].
  eapply (proj1 (proj2 (password_never_sent Example.env h Example.db3))
            POST_auth_login).
  - right. left. reflexivity.
  - vm_compute. reflexivity.
Defined.

(** ** The unique columns *)

Lemma strict_eq_sym (a b : value) : strict_eq a b = strict_eq b a.
Proof.
  destruct a, b; cbn [strict_eq]; try reflexivity.
  - now destruct b, b0.
  - apply Z.eqb_sym.
  - apply String.eqb_sym.
  - rewrite Nat.eqb_sym. now destruct k, k0.
Qed.

Lemma sql_eq_sym (a b : value) : sql_eq a b = sql_eq b a.
Proof.
  unfold sql_eq. rewrite strict_eq_sym.
  now destruct (is_null a), (is_null b).
Qed.

Lemma sql_eq_true_refl (a b : value) : sql_eq a b = true -> sql_eq a a = true.
Proof. intros H. pose proof (sql_eq_true _ _ H) as E. now subst. Qed.

(** What [unique_ok] checks. *)
Lemma unique_ok_spec (cols : list column) (others : list record)
    (row : record) :
  unique_ok cols others row = true ->
  forall c, In c cols -> unique c || primaryKey c = true ->
  forall r, In r others ->
  sql_eq (prop r (col_name c)) (prop row (col_name c)) = false.
Proof.
  unfold unique_ok. intros H c Hc Hu r Hr.
  rewrite forallb_forall in H. specialize (H c Hc). rewrite Hu in H.
  cbn [negb orb] in H. apply negb_true_iff in H.
  destruct (sql_eq _ _) eqn:E; [|reflexivity].
  assert (existsb (fun r => sql_eq (prop r (col_name c)) (prop row (col_name c))) others = true).
  { apply existsb_exists. eauto. }
  congruence.
Qed.

Lemma distinct_on_snoc (c : string) (rows : list record) (row : record) :
  distinct_on c rows ->
  (forall r, In r rows -> sql_eq (prop r c) (prop row c) = false) ->
  distinct_on c (rows ++ [row]).
Proof.
  unfold distinct_on. induction 1 as [|a l Ha Hl IH]; intros Hnew; cbn [app].
  - constructor; constructor.
  - constructor.
    + apply Forall_app. split; [exact Ha|]. constructor; [|constructor].
      apply Hnew. now left.
    + apply IH. intros r Hr. apply Hnew. now right.
Qed.

Lemma distinct_on_filter (c : string) (f : record -> bool) (rows : list record) :
  distinct_on c rows -> distinct_on c (filter f rows).
Proof.
  unfold distinct_on. induction 1 as [|a l Ha Hl IH]; cbn [filter].
  - constructor.
  - destruct (f a); [|exact IH]. constructor; [|exact IH].
    rewrite Forall_forall in *. intros x Hx. apply Ha.
    now apply filter_In in Hx as [Hx _].
Qed.

Lemma distinct_on_updated (c : string) (id : value) (values : record)
    (rows : list record) :
  distinct_on "id" rows ->
  distinct_on c rows ->
  (forall r, In r rows -> hit id r = true ->
     forall o, In o rows -> hit id o = false ->
     sql_eq (prop o c) (prop (updated_row values r) c) = false) ->
  distinct_on c
    (map (fun r => if hit id r then updated_row values r else r) rows).
Proof.
  unfold distinct_on. intros Hid Hc. revert Hid.
  induction Hc as [|a l Ha Hl IH]; intros Hid Hu; cbn [map]; [constructor|].
  inversion Hid as [|? ? Hida Hidl]; subst.
  constructor.
  - rewrite Forall_forall in *. intros x' Hx'.
    apply in_map_iff in Hx' as [x [<- Hx]].
    destruct (hit id a) eqn:Ea, (hit id x) eqn:Ex.
    + exfalso. specialize (Hida x Hx). unfold hit in Ea, Ex.
      pose proof (sql_eq_true _ _ Ea) as E1.
      pose proof (sql_eq_true _ _ Ex) as E2.
      rewrite E2, <- E1, (sql_eq_true_refl _ _ Ea) in Hida. discriminate.
    + rewrite sql_eq_sym. apply (Hu a); auto; [now left | now right].
    + apply (Hu x); auto; [now right | now left].
    + now apply Ha.
  - apply IH; [exact Hidl|]. intros r Hr Hh o Ho Hn.
    apply Hu; auto; now right.
Qed.

Lemma rows_of_commit_other (t t' : table) (rows : list record) (s : db) :
  t' <> t -> rows_of t' (commit t rows s) = rows_of t' s.
Proof. destruct t, t'; intros H; try reflexivity; congruence. Qed.

Lemma table_eq_dec (t t' : table) : {t = t'} + {t <> t'}.
Proof. decide equality. Qed.

Lemma id_in_columns (t : table) : In id_column (columns t).
Proof. destruct t; now left. Qed.

(** A statement that leaves in its table rows distinct on the constrained
    columns keeps the constraints. *)
Lemma constraints_commit (t : table) (rows : list record) (s : db) :
  constraints_hold s ->
  (forall c, In c (columns t) -> unique c || primaryKey c = true ->
     distinct_on (col_name c) rows) ->
  constraints_hold (commit t rows s).
Proof.
  intros Hs Hrows t' c Hc Hu. destruct (table_eq_dec t' t) as [->|Hne].
  - rewrite rows_of_commit. now apply Hrows.
  - rewrite rows_of_commit_other by assumption. now apply Hs.
Qed.

Lemma constraints_db_insert (t : table) (data : record) :
  preserves keeps_constraints (db_insert t data).
Proof.
  intros s Hs. unfold db_insert.
  destruct (not_null_ok _ _); cbn [negb snd]; [|exact Hs].
  destruct (unique_ok _ _ _) eqn:Hu; cbn [negb snd]; [|exact Hs].
  destruct (foreign_keys_ok _ _ _); cbn [negb snd]; [|exact Hs].
  apply constraints_commit; [exact Hs|]. intros c Hc Hcu.
  apply distinct_on_snoc; [now apply Hs|].
  intros r Hr. eapply unique_ok_spec; eassumption.
Qed.

Lemma constraints_db_update (t : table) (id : value) (values : record) :
  preserves keeps_constraints (db_update t id values).
Proof.
  intros s Hs. unfold db_update.
  destruct (forallb (not_null_ok _) _); cbn [negb snd]; [|exact Hs].
  destruct (forallb (unique_ok _ _) _) eqn:Hu; cbn [negb snd]; [|exact Hs].
  destruct (forallb (foreign_keys_ok _ _) _); cbn [negb snd]; [|exact Hs].
  apply constraints_commit; [exact Hs|]. intros c Hc Hcu.
  apply distinct_on_updated.
  - apply (Hs t id_column (id_in_columns t)). reflexivity.
  - now apply Hs.
  - intros r Hr Hh o Ho Hn. rewrite forallb_forall in Hu.
    eapply unique_ok_spec; [apply Hu | exact Hc | exact Hcu |].
    + apply in_map. apply filter_In. auto.
    + apply filter_In. split; [exact Ho|]. now rewrite Hn.
Qed.

Lemma constraints_db_delete (t : table) (id : value) :
  preserves keeps_constraints (db_delete t id).
Proof.
  intros s Hs. unfold db_delete.
  destruct (filter (hit id) (rows_of t s)); cbn [snd]; [exact Hs|].
  destruct (referenced t id s); cbn [snd]; [exact Hs|].
  apply constraints_commit; [exact Hs|]. intros c Hc Hcu.
  apply distinct_on_filter. now apply Hs.
Qed.

Lemma constraints_createAuditLog (data : InsertAuditLog) :
  preserves keeps_constraints (createAuditLog data).
Proof.
  intros s Hs t c Hc Hu. specialize (Hs t c Hc Hu).
  destruct t; exact Hs.
Qed.

Lemma constraints_empty : constraints_hold empty_db.
Proof. intros t c _ _. destruct t; constructor. Qed.

(** In every reachable state the primary keys and the unique columns hold
    distinct values. *)
Lemma reachable_constraints (s : db) : reachable s -> constraints_hold s.
Proof.
  intros Hr. refine (preserves_steps keeps_constraints _ _
                       constraints_db_insert constraints_db_update
                       constraints_db_delete constraints_createAuditLog
                       empty_db s Hr constraints_empty).
  - intros s0 H. exact H.
  - intros s1 s2 s3 H12 H23 H. auto.
Qed.

(** No two assets of a reachable state share a tag. *)
Lemma asset_tags_unique (s : db) :
  reachable s ->
  ForallOrdPairs
    (fun a b => forall tag, prop a "assetTag" = VStr tag ->
                            prop b "assetTag" <> VStr tag)
    (assets_rows s).
Proof.
  intros Hr. pose proof (reachable_constraints s Hr assets
    (with_notNull (with_unique (col "assetTag" text)))) as H.
  cbn [col_name with_notNull with_unique col] in H.
  assert (Hd : distinct_on "assetTag" (assets_rows s)).
  { apply H; [right; now left | reflexivity]. }
  clear H. unfold distinct_on in Hd.
  induction Hd as [|a l Ha Hl IH]; constructor; [|exact IH].
  rewrite Forall_forall in *. intros b Hb tag Ea Eb.
  specialize (Ha b Hb). rewrite Ea, Eb in Ha.
  unfold sql_eq in Ha. cbn in Ha. now rewrite String.eqb_refl in Ha.
Qed.

(** ** Taken tags *)

Lemma has_key_false_prop (o : record) (k : string) :
  has_key o k = false -> prop o k = VUndefined.
Proof.
  unfold has_key, keys. induction o as [|[k0 v0] o IH]; [reflexivity|].
  cbn [map existsb fst prop]. intros H. apply orb_false_iff in H as [Hk Ho].
  rewrite String.eqb_sym in Hk. rewrite Hk. now apply IH.
Qed.

(** The parsed data agrees with the body on the columns of the schema, and
    every column passed its check. *)
Lemma parse_fields_prop (partial : bool) (cols : list column)
    (body data : record) :
  parse_fields partial cols body = inr data ->
  NoDup (map col_name cols) ->
  forall c, In c cols ->
    prop data (col_name c) = prop body (col_name c)
    /\ check_field partial c (prop body (col_name c)) = None.
Proof.
  revert data. induction cols as [|c0 cols IH]; intros data Hp Hnd c Hc;
    [destruct Hc|].
  cbn [parse_fields] in Hp. cbn [map] in Hnd. inversion Hnd as [|? ? Hn0 Hnd'].
  subst.
  destruct (check_field partial c0 (prop body (col_name c0))) eqn:Hchk;
    [discriminate|].
  destruct (parse_fields partial cols body) as [|d] eqn:Hd; [discriminate|].
  injection Hp as <-.
  destruct Hc as [<- | Hc].
  - split; [|exact Hchk].
    destruct (has_key body (col_name c0)) eqn:Hk.
    + cbn [prop]. now rewrite String.eqb_refl.
    + rewrite (has_key_false_prop _ _ Hk).
      eapply parse_fields_keys; eassumption.
  - destruct (IH d eq_refl Hnd' c Hc) as [Hprop Hcheck].
    split; [|exact Hcheck].
    destruct (has_key body (col_name c0)); [|exact Hprop].
    cbn [prop].
    destruct (String.eqb_spec (col_name c0) (col_name c)) as [E|E];
      [|exact Hprop].
    exfalso. apply Hn0. rewrite E. now apply in_map.
Qed.

(** A validated asset tag is a string. *)
Lemma parsed_tag (partial : bool) (body data : record) :
  parse_fields partial insertAssetSchema body = inr data ->
  prop data "assetTag" = VUndefined /\ partial = true
  \/ exists tag, prop data "assetTag" = VStr tag.
Proof.
  intros Hp.
  destruct (parse_fields_prop partial insertAssetSchema body data Hp)
    with (c := with_notNull (with_unique (col "assetTag" text)))
    as [Hprop Hchk].
  - vm_compute. repeat constructor; cbn [In]; intuition discriminate.
  - now left.
  - cbn [col_name with_notNull with_unique col] in Hprop, Hchk.
    rewrite <- Hprop in Hchk.
    destruct (prop data "assetTag"); destruct partial;
      try discriminate Hchk; eauto.
Qed.

(** The part of C3 that holds as stated: creating an asset under a tag
    that is taken is answered 400 and changes nothing. *)
Lemma post_assets_taken (req : Request) (s : db) (data a : record) :
  user req <> None ->
  parse_fields false insertAssetSchema (body req) = inr data ->
  In a (assets_rows s) ->
  prop a "assetTag" = prop data "assetTag" ->
  post_assets req s
  = (inr (mkResponse 400 (j_message "Asset tag already exists")), s).
Proof.
  intros Hu Hp Ha Htag. unfold post_assets. unfold_monad.
  destruct (user req); [|congruence]. rewrite Hp. unfold_monad.
  match goal with
  | |- context [first (filter ?f ?l)] =>
      destruct (first (filter f l)) eqn:Hex
  end; [reflexivity|].
  exfalso. pose proof (first_filter_none _ _ Hex a Ha) as Hf.
  cbn beta in Hf. rewrite Htag in Hf.
  destruct (parsed_tag false _ _ Hp) as [[_ H] | [tag Ht]]; [discriminate|].
  rewrite Ht in Hf. unfold sql_eq in Hf. cbn in Hf.
  now rewrite String.eqb_refl in Hf.
Qed.

(** So is changing the tag of an asset to a taken tag that is not
    empty. *)
Lemma patch_assets_taken (req : Request) (s : db)
    (existing data a : record) (tag : string) :
  user req <> None ->
  lookup assets (params_id req) s = Some existing ->
  parse_fields true insertAssetSchema (body req) = inr data ->
  prop data "assetTag" = VStr tag ->
  tag <> "" ->
  prop existing "assetTag" <> VStr tag ->
  In a (assets_rows s) ->
  prop a "assetTag" = VStr tag ->
  patch_assets req s
  = (inr (mkResponse 400 (j_message "Asset tag already exists")), s).
Proof.
  intros Hu Hex Hp Ht Hne Hold Ha Htag. unfold patch_assets. unfold_monad.
  destruct (user req); [|congruence].
  unfold lookup in Hex. cbn [rows_of] in Hex. unfold hit in Hex.
  cbn [rows_of]. rewrite Hex, Hp, Ht. cbn [truthy].
  apply String.eqb_neq in Hne. rewrite Hne. cbn [negb andb].
  assert (Hs : strict_neq (VStr tag) (prop existing "assetTag") = true).
  { unfold strict_neq. apply negb_true_iff.
    destruct (strict_eq (VStr tag) (prop existing "assetTag")) eqn:E;
      [|reflexivity].
    apply strict_eq_str_l in E. congruence. }
  rewrite Hs. unfold_monad.
  match goal with
  | |- context [first (filter ?f ?l)] =>
      destruct (first (filter f l)) eqn:Hf
  end; [reflexivity|].
  exfalso. pose proof (first_filter_none _ _ Hf a Ha) as Hn.
  cbn beta in Hn. rewrite Htag in Hn. unfold sql_eq in Hn. cbn in Hn.
  now rewrite String.eqb_refl in Hn.
Qed.

(** ** Asset tags *)

(** C3, where the code departs from it.  With an asset tagged with the
    empty string and an asset tagged "T1" in the database, a request to
    change the tag of the second to the empty string is answered 500
    "Failed to update asset", not 400: the handler takes the empty new tag
    for no new tag, skips its check, and the update fails on the unique
    constraint of the table.  Nothing is changed.  The same tag sent to the
    route that creates assets, and a taken tag that is not empty sent to the
    route that updates them, are answered 400 "Asset tag already exists". *)
Theorem patch_to_the_empty_tag :
  map (fun a => (prop a "id", prop a "assetTag")) (assets_rows Example.db3)
    = [(VStr "uuid-1", VStr ""); (VStr "uuid-3", VStr "T1")]
  /\ serve Example.env PATCH_assets
       (Example.request "uuid-3" [("assetTag", VStr "")]) Example.db3
     = (mkResponse 500 (j_message "Failed to update asset"), Example.db3)
  /\ serve Example.env POST_assets
       (Example.request "" [("assetTag", VStr ""); ("name", VStr "other")])
       Example.db3
     = (mkResponse 400 (j_message "Asset tag already exists"), Example.db3)
  /\ serve Example.env PATCH_assets
       (Example.request "uuid-1" [("assetTag", VStr "T1")]) Example.db3
     = (mkResponse 400 (j_message "Asset tag already exists"), Example.db3).
Proof.
  split; [vm_compute; reflexivity|].
  split; [vm_compute; reflexivity|].
  split; vm_compute; reflexivity.
Qed.

(** ** Small runs *)

Example getChanges_example :
  getChanges [("a", VNum 1); ("b", VNaN); ("c", VStr "x")]
             [("b", VNaN); ("a", VNum 1); ("d", VUndefined); ("c", VStr "y")]
  = [mkChange "b" VNaN VNaN; mkChange "c" (VStr "x") (VStr "y")].
Proof. reflexivity. Qed.

Example calculateSimilarity_examples :
  ImportPage.calculateSimilarity "Serial_Number" "serial number" = 1%Q
  /\ ImportPage.calculateSimilarity "serial" "Serial Number" = (8 # 10)%Q
  /\ ImportPage.calculateSimilarity "serial no" "location" = (6 # 8)%Q.
Proof. repeat split; reflexivity. Qed.

Example suggestMapping_examples :
  ImportPage.sug_field (ImportPage.suggestMapping "Asset-Tag") = "assetTag"
  /\ ImportPage.sug_field (ImportPage.suggestMapping "Serial No") = "location"
  /\ ImportPage.sug_field (ImportPage.suggestMapping "zzz") = "".
Proof. repeat split; vm_compute; reflexivity. Qed.

Example parseInt_examples :
  parseInt "25" = VNum 25 /\ parseInt " -0x1f" = VNum (-31)
  /\ parseInt "12px" = VNum 12 /\ parseInt "abc" = VNaN
  /\ parseInt "0" = VNum 0.
Proof. repeat split; reflexivity. Qed.

Example getUserInfo_example :
  getUserInfo
    (mkRequest (Example.request "" [])
       (Some [("id", VStr "uuid-0"); ("email", VStr "ann@example.org");
              ("firstName", VStr "Ann"); ("lastName", VNull)]))
  = (VStr "uuid-0", VStr "Ann").
Proof. reflexivity. Qed.

Example import_example :
  fst (serve Example.env POST_import
         (Example.import_request
            [ [("assetTag", "I1"); ("name", "dock"); ("status", "Lost")];
              [("assetTag", "I1"); ("name", "dock again")];
              [("assetTag", "I2"); ("name", "")] ])
         Example.db3)
  = mkResponse 200 (j_import 1 2 3).
Proof. reflexivity. Qed.
